(** * Prompt Book MCP server: pagination, block decoding and text chunking

    A shallow embedding of the core of the server class [PromptBookServer]
    (the pagination helpers [fetchAllResults] and [fetchAllBlocks], the
    decoder [extractContentFromBlocks] with [formatTableContent], the
    splitter [splitTextIntoChunks] with [createParagraphBlocksFromText],
    and the tool handler [updatePrompt]), followed by the properties the
    specification states about them. *)

From Stdlib Require Import ZArith Lia Ascii String.
From stdpp Require Import base tactics option list gmap strings pretty.

Local Open Scope Z_scope.

(** ** JavaScript strings

    A JavaScript string is a finite sequence of UTF-16 code units.  A code
    unit is a number; the 16-bit bound is never used by the code below, so
    it is not imposed. *)

Abbreviation jsstring := (list N).

(** The code units of an ASCII literal. *)
Definition lit (s : string) : jsstring :=
  (fun a => N_of_ascii a) <$> list_ascii_of_string s.

Definition LF : N := 10%N.
Definition SP : N := 32%N.

(** [s.startsWith(pat, k)] for [k <= s.length]. *)
Definition matchesAt (s pat : jsstring) (k : nat) : bool :=
  bool_decide (take (length pat) (drop k s) = pat).

(** The scan of [String.prototype.lastIndexOf]: the largest index [<= k]
    at which [pat] occurs, or [-1]. *)
Fixpoint searchDown (s pat : jsstring) (k : nat) : Z :=
  if matchesAt s pat k then Z.of_nat k
  else match k with
       | O => -1
       | S k' => searchDown s pat k'
       end.

(** [s.lastIndexOf(pat, position)]: the start index is [position] clamped
    to [0 .. s.length - pat.length]; no index when [pat] is longer than
    [s]. *)
Definition lastIndexOf (s pat : jsstring) (position : Z) : Z :=
  let start := Z.min (Z.max position 0)
                     (Z.of_nat (length s) - Z.of_nat (length pat)) in
  if start <? 0 then -1 else searchDown s pat (Z.to_nat start).

(** An index argument of [substring], clamped to [0 .. len]. *)
Definition clampIndex (len : nat) (i : Z) : nat :=
  Z.to_nat (Z.min (Z.max i 0) (Z.of_nat len)).

(** [s.substring(start, end)]; [end] absent means [s.length].  The two
    clamped indices are swapped when out of order. *)
Definition substring (s : jsstring) (start : Z) (end_ : option Z) : jsstring :=
  let len := length s in
  let a := clampIndex len start in
  let b := match end_ with Some e => clampIndex len e | None => len end in
  take (Nat.max a b - Nat.min a b) (drop (Nat.min a b) s).

(** [s.includes(pat)]. *)
Definition includes (s pat : jsstring) : bool :=
  bool_decide (Exists (fun k => matchesAt s pat k = true) (seq 0 (S (length s)))).

(** ** The splitter

    [maxLength] counts code units: it is an integer.  [p > maxLength / 2]
    is a comparison of numbers: [maxLength / 2] is not rounded, so for
    integers it says [2 * p > maxLength]. *)
Definition gtHalf (p maxLength : Z) : bool := maxLength <? 2 * p.

(** The body of one iteration of the [while] loop of
    [splitTextIntoChunks] up to the choice of [breakPoint]. *)
Definition findBreakPoint (remainingText : jsstring) (maxLength : Z) : Z :=
  let paragraphBreak := lastIndexOf remainingText [LF; LF] maxLength in
  if gtHalf paragraphBreak maxLength then paragraphBreak + 2
  else
    let sentenceBreak :=
      Z.max (Z.max (lastIndexOf remainingText (lit ". ") maxLength)
                   (lastIndexOf remainingText (lit "! ") maxLength))
            (lastIndexOf remainingText (lit "? ") maxLength) in
    if gtHalf sentenceBreak maxLength then sentenceBreak + 2
    else
      let spaceBreak := lastIndexOf remainingText [SP] maxLength in
      if gtHalf spaceBreak maxLength then spaceBreak + 1
      else maxLength.

(** The [while (remainingText.length > 0)] loop.  The loop of the source
    need not end (with [maxLength = 0] the break point is [0] and nothing
    is consumed), so the model counts iterations: [None] says the fuel ran
    out. *)
Fixpoint splitLoop (fuel : nat) (remainingText : jsstring) (maxLength : Z)
    (chunks : list jsstring) : option (list jsstring) :=
  match fuel with
  | O => None
  | S fuel' =>
      if 0 <? Z.of_nat (length remainingText) then
        if Z.of_nat (length remainingText) <=? maxLength
        then Some (chunks ++ [remainingText])
        else
          let breakPoint := findBreakPoint remainingText maxLength in
          splitLoop fuel'
            (substring remainingText breakPoint None) maxLength
            (chunks ++ [substring remainingText 0 (Some breakPoint)])
      else Some chunks
  end.

(** [splitTextIntoChunks(text, maxLength)].  An iteration that consumes
    nothing leaves the loop in the same state for ever, so a run that ends
    takes at most [text.length + 1] iterations: that is the fuel.  The
    line written to the console before the result is returned is not
    modelled. *)
Definition splitTextIntoChunks (text : jsstring) (maxLength : Z)
    : option (list jsstring) :=
  if Z.of_nat (length text) <=? maxLength then Some [text]
  else splitLoop (S (length text)) text maxLength [].

(** [createParagraphBlocksFromText]: one paragraph block per chunk, the
    chunk being the content of its single rich-text item. *)
Record BlockObjectRequest := {
  bor_object : jsstring;
  bor_type : jsstring;
  bor_rich_text : list (jsstring * jsstring)   (* [(type, text.content)] *)
}.

Definition createParagraphBlocksFromText (text : jsstring)
    : option (list BlockObjectRequest) :=
  match splitTextIntoChunks text 2000 with
  | Some chunks =>
      Some (map (fun chunk =>
                   {| bor_object := lit "block";
                      bor_type := lit "paragraph";
                      bor_rich_text := [(lit "text", chunk)] |}) chunks)
  | None => None
  end.

(** ** Blocks

    A block object of the API: [id], [type], [has_children] and the
    payload object stored under the key named by [type].  The fields the
    decoder reads from the payloads are gathered in one record; a payload
    that lacks a field has the empty value there.  [rich_text], [caption]
    and the cells of a table row are arrays of rich-text items, of which
    only [plain_text] is read. *)
Record Block := {
  id : jsstring;
  type : jsstring;
  has_children : bool;
  rich_text : list jsstring;
  language : jsstring;              (* code.language *)
  checked : bool;                   (* to_do.checked *)
  icon_emoji : jsstring;            (* callout.icon?.emoji *)
  file_type : jsstring;             (* block[type].type *)
  external_url : jsstring;          (* block[type].external.url *)
  file_url : jsstring;              (* block[type].file.url *)
  caption : list jsstring;
  url : jsstring;                   (* bookmark.url *)
  expression : jsstring;            (* equation.expression *)
  link_type : jsstring;             (* link_to_page.type *)
  page_id : jsstring;
  database_id : jsstring;
  cells : list (list jsstring)      (* table_row.cells *)
}.

(** ** Outcomes of asynchronous code

    An [async] function returns, throws, or does not end.  Every value
    thrown in the code modelled here is an [Error]; only its message is
    read.  [McpError] is the protocol error of the tool layer. *)
Inductive exn : Type :=
| JsError (message : jsstring)
| McpError_InvalidParams (message : jsstring).

Definition exn_message (e : exn) : jsstring :=
  match e with JsError m => m | McpError_InvalidParams m => m end.

Inductive outcome (A : Type) : Type :=
| Returned (a : A)
| Thrown (e : exn)
| Diverged.
Arguments Returned {A} a.
Arguments Thrown {A} e.
Arguments Diverged {A}.

(** A page of a paginated listing. *)
Record ListResponse (A : Type) := {
  results : list A;
  has_more : bool;
  next_cursor : option jsstring
}.
Arguments results {A} _.
Arguments has_more {A} _.
Arguments next_cursor {A} _.

(** The properties object sent by [pages.update]: the keys [Name],
    [Type] and [Tags], each present or not. *)
Record Properties := {
  prop_Name : option jsstring;
  prop_Type : option jsstring;
  prop_Tags : option (list jsstring)
}.

(** The part of a database object that [updatePrompt] reads:
    [properties?.Type?.select?.options], absent when a link is missing. *)
Record DatabaseObject := {
  type_select_options : option (list jsstring)
}.

Section Server.

(** The state of the remote service, the records of a database query and
    the query descriptor are opaque to this code. *)
Context {World Page QueryParams : Type}.

(** The requests of the Notion client that the code issues. *)
Inductive Request : Type :=
| DatabasesQuery (queryParams : QueryParams) (page_size : Z)
    (start_cursor : option jsstring)
| DatabasesRetrieve (database_id : jsstring)
| BlocksChildrenList (block_id : jsstring) (page_size : Z)
    (start_cursor : option jsstring)
| BlocksChildrenAppend (block_id : jsstring) (children : list BlockObjectRequest)
| BlocksDelete (block_id : jsstring)
| PagesRetrieve (page_id : jsstring)
| PagesUpdate (page_id : jsstring) (properties : Properties).

Definition Reply (r : Request) : Type :=
  match r with
  | DatabasesQuery _ _ _ => ListResponse Page
  | DatabasesRetrieve _ => DatabaseObject
  | BlocksChildrenList _ _ _ => ListResponse Block
  | BlocksChildrenAppend _ _ => unit
  | BlocksDelete _ => unit
  | PagesRetrieve _ => unit
  | PagesUpdate _ _ => unit
  end.

(** The client: each request is answered (or rejected) by the remote,
    whose state it may change. *)
Definition Client : Type :=
  forall r : Request, World -> outcome (Reply r) * World.

(** The state threaded through the code: the remote, and the requests
    issued so far, oldest first. *)
Record State := {
  world : World;
  requests : list Request
}.

Definition M (A : Type) : Type := State -> outcome A * State.

Definition ret {A} (a : A) : M A := fun s => (Returned a, s).
Definition throw {A} (e : exn) : M A := fun s => (Thrown e, s).
Definition diverge {A} : M A := fun s => (Diverged, s).

Definition bind {A B} (m : M A) (k : A -> M B) : M B :=
  fun s =>
    match m s with
    | (Returned a, s') => k a s'
    | (Thrown e, s') => (Thrown e, s')
    | (Diverged, s') => (Diverged, s')
    end.

(** [try { m } catch (error) { h error }]. *)
Definition tryCatch {A} (m : M A) (h : exn -> M A) : M A :=
  fun s =>
    match m s with
    | (Thrown e, s') => h e s'
    | r => r
    end.

(** [await notion.<request>]. *)
Definition call (notion : Client) (r : Request) : M (Reply r) :=
  fun s =>
    let (o, w) := notion r (world s) in
    (o, {| world := w; requests := requests s ++ [r] |}).

(** A [for ... of] loop that carries a state. *)
Fixpoint foldM {A B} (f : A -> B -> M A) (l : list B) (a : A) : M A :=
  match l with
  | [] => ret a
  | b :: l' => bind (f a b) (foldM f l')
  end.

End Server.

Arguments Request : clear implicits.
Arguments Client : clear implicits.
Arguments State : clear implicits.
Arguments M : clear implicits.

Declare Scope js_scope.
Delimit Scope js_scope with js.
Notation "x <- m ;; k" := (bind m (fun x => k))
  (at level 100, m at next level, right associativity) : js_scope.
Notation "m ;;; k" := (bind m (fun _ => k))
  (at level 100, right associativity) : js_scope.

Local Open Scope js_scope.

(** ** The server object *)

Record PromptBook := {
  book_id : jsstring;
  book_name : jsstring;
  notion_token : jsstring;
  notion_database_id : jsstring
}.

Section Fetchers.

Context {World Page QueryParams : Type}.

Abbreviation Client' := (Client World Page QueryParams).
Abbreviation M' := (M World QueryParams).

(** The fields of [PromptBookServer] that the code below reads; [None]
    is [null]. *)
Record Server := {
  notion : option Client';
  activePromptBook : option PromptBook
}.

(** [x || undefined] for a cursor: [null], [undefined] and the empty
    string are falsy. *)
Definition orUndefined (c : option jsstring) : option jsstring :=
  match c with
  | Some [] => None
  | c => c
  end.

(** [!cursor]. *)
Definition noCursor (c : option jsstring) : bool :=
  match c with
  | None | Some [] => true
  | Some _ => false
  end.

(** The [while (hasMore)] loop shared, word for word, by
    [fetchAllResults] and [fetchAllBlocks]; [request cursor] is the one
    call that differs.  The remote decides whether the loop ends, so the
    model counts its iterations. *)
Fixpoint fetchLoop {A} (fuel : nat)
    (request : option jsstring -> M' (ListResponse A))
    (allResults : list A) (hasMore : bool) (cursor : option jsstring)
    : M' (list A) :=
  if negb hasMore then ret allResults
  else
    match fuel with
    | O => diverge
    | S fuel' =>
        response <- request cursor ;;
        let allResults := allResults ++ results response in
        let hasMore := has_more response in
        let cursor := orUndefined (next_cursor response) in
        (* Safety check to prevent infinite loops *)
        if noCursor cursor && hasMore then ret allResults
        else fetchLoop fuel' request allResults hasMore cursor
    end.

Definition fetchAllResults (fuel : nat) (this : Server)
    (queryParams : QueryParams) : M' (list Page) :=
  match notion this with
  | None => throw (JsError (lit "Notion client not initialized"))
  | Some client =>
      fetchLoop fuel
        (fun cursor => call client (DatabasesQuery queryParams 100 cursor))
        [] true None
  end.

Definition fetchAllBlocks (fuel : nat) (this : Server)
    (blockId : jsstring) : M' (list Block) :=
  match notion this with
  | None => throw (JsError (lit "Notion client not initialized"))
  | Some client =>
      fetchLoop fuel
        (fun cursor => call client (BlocksChildrenList blockId 100 cursor))
        [] true None
  end.

End Fetchers.

(** ** String helpers of the decoder *)

(** [l.join(sep)]. *)
Definition join (sep : jsstring) (l : list jsstring) : jsstring :=
  match l with
  | [] => []
  | x :: l' => x ++ concat (map (fun y => sep ++ y) l')
  end.

(** [richText.map(part => part.plain_text).join('')]. *)
Definition plainText (richText : list jsstring) : jsstring := join [] richText.

(** [s.repeat(n)]. *)
Definition repeatString (s : jsstring) (n : nat) : jsstring :=
  concat (replicate n s).

(** The decimal rendering of an integer in a template literal. *)
Definition numberToString (n : Z) : jsstring := lit (pretty n).

(** White space and line terminators, as [String.prototype.trim] sees
    them. *)
Definition isWhiteSpace (c : N) : bool :=
  bool_decide (c ∈ [9; 10; 11; 12; 13; 32; 160; 5760; 8232; 8233; 8239;
                    8287; 12288; 65279]%N)
  || ((8192 <=? c)%N && (c <=? 8202)%N).

Fixpoint trimStart (s : jsstring) : jsstring :=
  match s with
  | c :: s' => if isWhiteSpace c then trimStart s' else s
  | [] => []
  end.

Definition trim (s : jsstring) : jsstring :=
  reverse (trimStart (reverse (trimStart s))).

(** A string is truthy when it is not empty. *)
Definition truthy (s : jsstring) : bool :=
  match s with [] => false | _ => true end.

(** [s.charAt(0).toUpperCase() + s.slice(1)], for the strings it is
    applied to: the type names [embed], [video], [audio], [file], [pdf],
    whose first letter is a lower-case ASCII letter. *)
Definition capitalize (s : jsstring) : jsstring :=
  match s with
  | c :: s' => (if (97 <=? c)%N && (c <=? 122)%N then (c - 32)%N else c) :: s'
  | [] => []
  end.

Definition QUOTE : N := 34%N.

(** The three code units that the source text has for the bullet of a
    bulleted item: U+00E2, U+20AC, U+00A2. *)
Definition bullet : jsstring := [226; 8364; 162]%N.

(** [formatTableContent]: the loop over the rows, then the closing
    line. *)
Fixpoint formatTableRows (tableRows : list Block) (indent : jsstring)
    (tableContent : jsstring) (hasProcessedHeader : bool) : jsstring :=
  match tableRows with
  | [] => tableContent
  | row :: rest =>
      if bool_decide (type row = lit "table_row") then
        let cells := map plainText (cells row) in
        if negb hasProcessedHeader then
          formatTableRows rest indent
            (tableContent
               ++ indent ++ lit "| " ++ join (lit " | ") cells ++ lit " |" ++ [LF]
               ++ indent ++ lit "| "
               ++ join (lit " | ") (map (fun _ => lit "---") cells)
               ++ lit " |" ++ [LF])
            true
        else
          formatTableRows rest indent
            (tableContent
               ++ indent ++ lit "| " ++ join (lit " | ") cells ++ lit " |" ++ [LF])
            hasProcessedHeader
      else formatTableRows rest indent tableContent hasProcessedHeader
  end.

Definition formatTableContent (tableRows : list Block) (indent : jsstring)
    : jsstring :=
  formatTableRows tableRows indent [] false ++ [LF].

(** ** The decoder *)

(** The variables of [extractContentFromBlocks] that live across the
    iterations of its loop.  [listNumbering] is the object shared, by
    reference, with the recursive calls. *)
Record LoopState := {
  content : jsstring;
  currentListType : option jsstring;
  currentListId : jsstring;
  listNumbering : gmap jsstring Z
}.

Definition isNumberedList (block : Block) : bool :=
  bool_decide (type block = lit "numbered_list_item").
Definition isBulletedList (block : Block) : bool :=
  bool_decide (type block = lit "bulleted_list_item").

(** The key of the current list context. *)
Definition listIdOf (indentLevel : nat) (block : Block) : jsstring :=
  numberToString (Z.of_nat indentLevel) ++ lit "-"
    ++ (if isNumberedList block then lit "numbered"
        else if isBulletedList block then lit "bulleted"
        else lit "none").

(** "Handle list transitions": the first part of the loop body. *)
Definition trackListContext (indentLevel : nat) (block : Block)
    (st : LoopState) : LoopState :=
  let listId := listIdOf indentLevel block in
  if isNumberedList block || isBulletedList block then
    if bool_decide (currentListType st ≠ Some (type block))
       || bool_decide (currentListId st ≠ listId) then
      {| content := content st;
         currentListType := Some (type block);
         currentListId := listId;
         listNumbering :=
           if isNumberedList block
           then <[listId := 1]> (listNumbering st)
           else listNumbering st |}
    else st
  else
    {| content := content st;
       currentListType := None;
       currentListId := [];
       listNumbering := listNumbering st |}.

(** [listNumbering[listId] || 1]. *)
Definition numberOr1 (listNumbering : gmap jsstring Z) (listId : jsstring) : Z :=
  match listNumbering !! listId with
  | Some n => if n =? 0 then 1 else n
  | None => 1
  end.

(** The URL of an image or media payload. *)
Definition mediaUrl (block : Block) : jsstring :=
  if bool_decide (file_type block = lit "external") then external_url block
  else if bool_decide (file_type block = lit "file") then file_url block
  else [].

Section Decoder.

Context {World Page QueryParams : Type}.

Abbreviation M' := (M World QueryParams).
Abbreviation Numbering := (gmap jsstring Z).

(** The body of the loop of [extractContentFromBlocks] for one block.
    [fetch] is [this.fetchAllBlocks] and [recurse] is the recursive call
    [this.extractContentFromBlocks]; the latter returns, with the text,
    the numbering object as the call left it.  The result is the text
    ([content]) and the numbering object after the block. *)
Definition renderBlock
    (fetch : jsstring -> M' (list Block))
    (recurse : list Block -> Numbering -> nat -> M' (jsstring * Numbering))
    (indentLevel : nat) (block : Block)
    (content : jsstring) (listNumbering : Numbering)
    : M' (jsstring * Numbering) :=
  let indent := repeatString (lit "  ") indentLevel in
  let listId := listIdOf indentLevel block in
  let text := plainText (rich_text block) in
  let typeIs k := bool_decide (type block = lit k) in
  let children listNumbering level :=
    (childBlocks <- fetch (id block) ;;
     recurse childBlocks listNumbering level) in
  let listItem content listNumbering :=
    (if has_children block then
       child <- children listNumbering (S indentLevel) ;;
       ret ((if truthy (trim child.1) then content ++ [LF] ++ child.1
             else content) ++ [LF],
            child.2)
     else ret (content ++ [LF], listNumbering)) in
  let withChildren content :=
    (if has_children block then
       child <- children listNumbering (S indentLevel) ;;
       ret (content ++ child.1, child.2)
     else ret (content, listNumbering)) in
  if typeIs "paragraph" then
    ret (content ++ indent ++ text ++ [LF; LF], listNumbering)
  else if typeIs "heading_1" then
    ret (content ++ indent ++ lit "# " ++ text ++ [LF; LF], listNumbering)
  else if typeIs "heading_2" then
    ret (content ++ indent ++ lit "## " ++ text ++ [LF; LF], listNumbering)
  else if typeIs "heading_3" then
    ret (content ++ indent ++ lit "### " ++ text ++ [LF; LF], listNumbering)
  else if typeIs "bulleted_list_item" then
    listItem (content ++ indent ++ bullet ++ [SP] ++ text) listNumbering
  else if typeIs "numbered_list_item" then
    let number := numberOr1 listNumbering listId in
    listItem (content ++ indent ++ numberToString number ++ lit ". " ++ text)
             (<[listId := number + 1]> listNumbering)
  else if typeIs "code" then
    ret (content ++ indent ++ lit "<pre><code class=" ++ [QUOTE]
           ++ language block ++ [QUOTE] ++ lit ">" ++ [LF] ++ text ++ [LF]
           ++ lit "</code></pre>" ++ [LF; LF],
         listNumbering)
  else if typeIs "quote" then
    ret (content ++ indent ++ lit "> " ++ text ++ [LF; LF], listNumbering)
  else if typeIs "divider" then
    ret (content ++ indent ++ lit "---" ++ [LF; LF], listNumbering)
  else if typeIs "toggle" then
    withChildren (content ++ indent ++ lit "**" ++ text ++ lit "**" ++ [LF; LF])
  else if typeIs "to_do" then
    withChildren (content ++ indent ++ lit "- ["
                    ++ (if checked block then lit "x" else lit " ")
                    ++ lit "] " ++ text ++ [LF])
  else if typeIs "callout" then
    withChildren (content ++ indent ++ lit "> " ++ icon_emoji block
                    ++ lit " **Note:** " ++ text ++ [LF; LF])
  else if typeIs "table" then
    if has_children block then
      tableRows <- fetch (id block) ;;
      ret (content ++ formatTableContent tableRows indent, listNumbering)
    else ret (content, listNumbering)
  else if typeIs "image" then
    let caption :=
      if 0 <? Z.of_nat (length (caption block))
      then plainText (caption block) else lit "Image" in
    ret (content ++ indent ++ lit "![" ++ caption ++ lit "]("
           ++ mediaUrl block ++ lit ")" ++ [LF; LF],
         listNumbering)
  else if typeIs "bookmark" then
    let caption :=
      if 0 <? Z.of_nat (length (caption block))
      then plainText (caption block) else url block in
    ret (content ++ indent ++ lit "[" ++ caption ++ lit "]("
           ++ url block ++ lit ")" ++ [LF; LF],
         listNumbering)
  else if typeIs "embed" || typeIs "video" || typeIs "audio" || typeIs "file" || typeIs "pdf" then
    ret (content ++ indent ++ lit "[" ++ capitalize (type block) ++ lit "]("
           ++ mediaUrl block ++ lit ")" ++ [LF; LF],
         listNumbering)
  else if typeIs "equation" then
    ret (content ++ indent ++ lit "$$" ++ [LF] ++ expression block ++ [LF]
           ++ lit "$$" ++ [LF; LF],
         listNumbering)
  else if typeIs "synced_block" then
    if has_children block then
      child <- children listNumbering indentLevel ;;
      ret (content ++ child.1, child.2)
    else ret (content, listNumbering)
  else if typeIs "template" then
    ret (content ++ indent ++ lit "*Template:* " ++ text ++ [LF; LF],
         listNumbering)
  else if typeIs "link_to_page" then
    let pageId :=
      if bool_decide (link_type block = lit "page_id") then page_id block
      else if bool_decide (link_type block = lit "database_id")
           then database_id block
           else [] in
    ret (content ++ indent ++ lit "[Link to page](notion://page/" ++ pageId
           ++ lit ")" ++ [LF; LF],
         listNumbering)
  else if typeIs "column_list" && has_children block then
    columns <- fetch (id block) ;;
    foldM (fun (acc : jsstring * Numbering) (column : Block) =>
             if bool_decide (type column = lit "column") && has_children column
             then
               columnBlocks <- fetch (id column) ;;
               columnContent <- recurse columnBlocks acc.2 indentLevel ;;
               ret (acc.1 ++ columnContent.1, columnContent.2)
             else ret acc)
          columns (content, listNumbering)
  else if has_children block
          && negb (isNumberedList block || isBulletedList block) then
    child <- children listNumbering indentLevel ;;
    ret (content ++ child.1, child.2)
  else ret (content, listNumbering).

(** One iteration of the loop: the list context, then the block. *)
Definition processBlock
    (fetch : jsstring -> M' (list Block))
    (recurse : list Block -> Numbering -> nat -> M' (jsstring * Numbering))
    (indentLevel : nat) (st : LoopState) (block : Block) : M' LoopState :=
  let st := trackListContext indentLevel block st in
  r <- renderBlock fetch recurse indentLevel block
         (content st) (listNumbering st) ;;
  ret {| content := r.1;
         currentListType := currentListType st;
         currentListId := currentListId st;
         listNumbering := r.2 |}.

(** The loop variables before the first block, and what the function
    hands back after the last: the text, and the numbering object. *)
Definition initialState (numbering : Numbering) : LoopState :=
  {| content := [];
     currentListType := None;
     currentListId := [];
     listNumbering := numbering |}.

Definition loopResult (st : LoopState) : jsstring * Numbering :=
  (content st, listNumbering st).

(** [extractContentFromBlocks(blocks, listNumbering, indentLevel)].  The
    depth of the tree is decided by the remote, so the model counts the
    nesting of the calls; the same count bounds the pages of each
    listing. *)
Fixpoint extractContentFromBlocks (fuel : nat) (this : Server)
    (blocks : list Block) (listNumbering : Numbering) (indentLevel : nat)
    : M' (jsstring * Numbering) :=
  match fuel with
  | O => diverge
  | S fuel' =>
      st <- foldM (processBlock (fetchAllBlocks (Page:=Page) fuel' this)
                     (extractContentFromBlocks fuel' this) indentLevel)
              blocks (initialState listNumbering) ;;
      ret (loopResult st)
  end.

End Decoder.

(** ** The tool handler [updatePrompt] *)

Definition NO_ACTIVE_PROMPT_BOOK : jsstring :=
  lit "No active prompt book selected. Use the activate_prompt_book tool to select a prompt book.".
Definition DATABASE_ERROR_MESSAGE : jsstring :=
  lit "Database ID is empty or invalid. Please use the create_prompt_database tool to create a new prompt database.".

(** The arguments of the tool call; [None] is [undefined]. *)
Record UpdateArgs := {
  arg_prompt_id : option jsstring;
  arg_name : option jsstring;
  arg_detailed_prompt : option jsstring;
  arg_type : option jsstring;
  arg_tags : option (list jsstring)
}.

(** The tool result [{ content: [{ type: 'text', text }], isError }]. *)
Record ToolResult := {
  result_text : jsstring;
  isError : bool
}.

Definition errorResult (text : jsstring) : ToolResult :=
  {| result_text := text; isError := true |}.

(** [Object.keys(properties).length]. *)
Definition keysLength (properties : Properties) : Z :=
  (match prop_Name properties with Some _ => 1 | None => 0 end)
  + (match prop_Type properties with Some _ => 1 | None => 0 end)
  + (match prop_Tags properties with Some _ => 1 | None => 0 end).

Section UpdatePrompt.

Context {World Page QueryParams : Type}.

(** [JSON.stringify] of a string: the library's quoting. *)
Variable JSON_stringify : jsstring -> jsstring.

Abbreviation M' := (M World QueryParams).

Definition successResult (promptId : jsstring) : ToolResult :=
  {| result_text :=
       lit "{" ++ [LF] ++ lit "  " ++ [QUOTE] ++ lit "message" ++ [QUOTE]
         ++ lit ": " ++ [QUOTE] ++ lit "Prompt updated successfully" ++ [QUOTE]
         ++ lit "," ++ [LF] ++ lit "  " ++ [QUOTE] ++ lit "prompt_id" ++ [QUOTE]
         ++ lit ": " ++ JSON_stringify promptId ++ [LF] ++ lit "}";
     isError := false |}.

(** The [catch] clause that closes [updatePrompt]. *)
Definition updatePromptCatch (error : exn) : M' ToolResult :=
  if includes (exn_message error) (lit "Invalid database")
     || includes (exn_message error) (lit "Could not find database")
  then ret (errorResult DATABASE_ERROR_MESSAGE)
  else ret (errorResult (lit "Error updating prompt: " ++ exn_message error)).

(** The statements of the [try] block of [updatePrompt]. *)
Definition updatePromptBody (fuel : nat) (this : Server (Page:=Page))
    (args : UpdateArgs) (promptId : jsstring) : M' ToolResult :=
  match activePromptBook this, notion this with
  | Some book, Some client =>
      (* Check if database ID exists and is valid *)
      if negb (truthy (notion_database_id book)) then
        ret (errorResult DATABASE_ERROR_MESSAGE)
      else
        (* First, verify the prompt exists by retrieving it *)
        found <- tryCatch (call client (PagesRetrieve promptId) ;;; ret true)
                   (fun _ => ret false) ;;
        if negb found then
          ret (errorResult (lit "Error: Prompt with ID " ++ [QUOTE] ++ promptId
                              ++ [QUOTE] ++ lit " not found."))
        else
          (* If type is provided, verify it's valid *)
          invalid <-
            match arg_type args with
            | Some type =>
                databaseResponse <-
                  call client (DatabasesRetrieve (notion_database_id book)) ;;
                let validTypes :=
                  default [] (type_select_options databaseResponse) in
                if bool_decide (type ∈ validTypes) then ret None
                else
                  ret (Some (errorResult
                    (lit "Error: Invalid type " ++ [QUOTE] ++ type ++ [QUOTE]
                       ++ lit ". Valid types are: "
                       ++ join (lit ", ") validTypes
                       ++ lit ". Use the list_all_types tool to see available types.")))
            | None => ret None
            end ;;
          match invalid with
          | Some result => ret result
          | None =>
              (* Prepare properties update *)
              let properties :=
                {| prop_Name := arg_name args;
                   prop_Type := arg_type args;
                   prop_Tags := arg_tags args |} in
              (* Update page properties *)
              (if 0 <? keysLength properties
               then call client (PagesUpdate promptId properties)
               else ret tt) ;;;
              (* Update content if detailed_prompt is provided *)
              match arg_detailed_prompt args with
              | Some detailed_prompt =>
                  existingBlocks <- fetchAllBlocks fuel this promptId ;;
                  foldM (fun _ block => call client (BlocksDelete (id block)))
                        existingBlocks tt ;;;
                  match createParagraphBlocksFromText detailed_prompt with
                  | Some children =>
                      call client (BlocksChildrenAppend promptId children)
                  | None => diverge
                  end
              | None => ret tt
              end ;;;
              ret (successResult promptId)
          end
  | _, _ => ret (errorResult NO_ACTIVE_PROMPT_BOOK)
  end.

(** [updatePrompt(args)]: the validation, which throws, then the [try]
    block.  What the function writes to the console is not modelled. *)
Definition updatePrompt (fuel : nat) (this : Server (Page:=Page))
    (args : option UpdateArgs) : M' ToolResult :=
  match args with
  | None => throw (McpError_InvalidParams (lit "Prompt ID is required"))
  | Some args =>
      match arg_prompt_id args with
      | None | Some [] =>
          throw (McpError_InvalidParams (lit "Prompt ID is required"))
      | Some promptId =>
          let hasUpdates :=
            bool_decide (arg_name args ≠ None)
            || bool_decide (arg_detailed_prompt args ≠ None)
            || bool_decide (arg_type args ≠ None)
            || bool_decide (arg_tags args ≠ None) in
          if negb hasUpdates then
            throw (McpError_InvalidParams
              (lit "At least one update parameter (name, detailed_prompt, type, or tags) must be provided"))
          else
            tryCatch (updatePromptBody fuel this args promptId)
                     updatePromptCatch
      end
  end.

End UpdatePrompt.

(** * Notions used to state the properties *)

Section Notions.

Context {World Page QueryParams : Type}.

Abbreviation M' := (M World QueryParams).
Abbreviation State' := (State World QueryParams).

(** A well-formed run of a paginated listing: starting with cursor [c] in
    state [s], the remote serves [pages], each with [has_more] set and a
    cursor to the next, and the listing is then at cursor [c'] in state
    [s']. *)
Inductive Continues {A} (request : option jsstring -> M' (ListResponse A))
    : option jsstring -> State' -> list (list A)
      -> option jsstring -> State' -> Prop :=
| Continues_nil c s : Continues request c s [] c s
| Continues_cons c s r s1 next pages c' s' :
    request c s = (Returned r, s1) ->
    has_more r = true ->
    next_cursor r = Some next ->
    next ≠ [] ->
    Continues request (Some next) s1 pages c' s' ->
    Continues request c s (results r :: pages) c' s'.

(** The two listing requests of the fetchers. *)
Definition queryRequest (client : Client World Page QueryParams)
    (queryParams : QueryParams) (cursor : option jsstring)
    : M' (ListResponse Page) :=
  call client (DatabasesQuery queryParams 100 cursor).

Definition childrenRequest (client : Client World Page QueryParams)
    (blockId : jsstring) (cursor : option jsstring)
    : M' (ListResponse Block) :=
  call client (BlocksChildrenList blockId 100 cursor).

(** The outcome of a computation does not depend on the state it is run
    in. *)
Definition StateIndep {A} (m : M' A) : Prop :=
  forall s1 s2, (m s1).1 = (m s2).1.

(** Whenever the computation returns, the value satisfies [Q]. *)
Definition Ensures {A} (m : M' A) (Q : A -> Prop) : Prop :=
  forall s a s', m s = (Returned a, s') -> Q a.

(** The computation only adds requests, and each one satisfies [P],
    however it ends. *)
Definition Issues {A} (P : Request QueryParams -> Prop) (m : M' A) : Prop :=
  forall s, exists new,
    requests (m s).2 = requests s ++ new /\ Forall P new.

(** The child-fetch of the decoder is a fixed function of the block id:
    whatever the state of the remote, [fetchAllBlocks] ends the same
    way, with the same list. *)
Definition FixedChildFetch (this : Server (Page:=Page)) : Prop :=
  forall fuel blockId,
    StateIndep (fetchAllBlocks (QueryParams:=QueryParams) fuel this blockId).

End Notions.

(** * Simulated remotes

    A remote that answers from a script.  The page of a listing is chosen
    by the cursor: no cursor is page 0, and the cursor made of the one
    code unit [n] is page [n]; anything else is rejected.  The state of
    the remote counts the requests it has served. *)
Definition scriptedPage {A} (script : list (ListResponse A))
    (cursor : option jsstring) : outcome (ListResponse A) :=
  let index :=
    match cursor with
    | None => Some 0%nat
    | Some [n] => Some (N.to_nat n)
    | Some _ => None
    end in
  match index ≫= (fun i => script !! i) with
  | Some r => Returned r
  | None => Thrown (JsError (lit "validation_error"))
  end.

Definition scriptedClient (queryScript : list (ListResponse nat))
    (tree : jsstring -> list (ListResponse Block)) : Client nat nat unit :=
  fun r w =>
    match r return outcome (Reply r) * nat with
    | DatabasesQuery _ _ c => (scriptedPage queryScript c, S w)
    | BlocksChildrenList b _ c => (scriptedPage (tree b) c, S w)
    | DatabasesRetrieve _ => (Returned {| type_select_options := Some [] |}, S w)
    | BlocksChildrenAppend _ _ => (Returned tt, S w)
    | BlocksDelete _ => (Returned tt, S w)
    | PagesRetrieve _ => (Returned tt, S w)
    | PagesUpdate _ _ => (Returned tt, S w)
    end.

Definition scriptedServer (queryScript : list (ListResponse nat))
    (tree : jsstring -> list (ListResponse Block)) : Server :=
  {| notion := Some (scriptedClient queryScript tree);
     activePromptBook :=
       Some {| book_id := lit "book"; book_name := lit "Book";
               notion_token := lit "secret"; notion_database_id := lit "db" |} |}.

Definition freshState : State nat unit := {| world := 0%nat; requests := [] |}.

Definition page {A} (records : list A) (more : bool) (cursor : option jsstring)
    : ListResponse A :=
  {| results := records; has_more := more; next_cursor := cursor |}.

(** A block that carries text only. *)
Definition textBlock (blockId blockType : string) (children : bool)
    (text : string) : Block :=
  {| id := lit blockId; type := lit blockType; has_children := children;
     rich_text := [lit text];
     language := []; checked := false; icon_emoji := []; file_type := [];
     external_url := []; file_url := []; caption := []; url := [];
     expression := []; link_type := []; page_id := []; database_id := [];
     cells := [] |}.

(** Three pages of records, well formed. *)
Definition threePages : list (ListResponse nat) :=
  [page [1; 2]%nat true (Some [1%N]);
   page [3]%nat true (Some [2%N]);
   page [4; 5]%nat false None].

(** A remote that always announces more pages but never gives a
    cursor. *)
Definition noCursorPages : list (ListResponse nat) :=
  [page [1; 2]%nat true None; page [3]%nat true None].

Definition noCursorTree (blockId : jsstring) : list (ListResponse Block) :=
  [page [textBlock "a" "paragraph" false "A"] true (Some []);
   page [textBlock "b" "paragraph" false "B"] true None].

(** The block types that [extractContentFromBlocks] has a branch for. *)
Definition handledTypes : list jsstring :=
  lit <$> ["paragraph"; "heading_1"; "heading_2"; "heading_3";
           "bulleted_list_item"; "numbered_list_item"; "code"; "quote";
           "divider"; "toggle"; "to_do"; "callout"; "table"; "image";
           "bookmark"; "embed"; "video"; "audio"; "file"; "pdf"; "equation";
           "synced_block"; "template"; "link_to_page"; "column_list"]%string.

(** The blocks of the decode scenario. *)
Definition scenarioBlocks : list Block :=
  [textBlock "b1" "heading_1" false "Title";
   textBlock "b2" "paragraph" false "Body text.";
   textBlock "b3" "numbered_list_item" false "First";
   textBlock "b4" "numbered_list_item" false "Second"].

Definition scenarioText : jsstring :=
  lit "# Title" ++ [LF; LF] ++ lit "Body text." ++ [LF; LF]
    ++ lit "1. First" ++ [LF] ++ lit "2. Second" ++ [LF].

(** A page whose only block is of a type the decoder does not know, with
    one paragraph below it. *)
Definition wrapperTree (blockId : jsstring) : list (ListResponse Block) :=
  if bool_decide (blockId = lit "w")
  then [page [textBlock "p" "paragraph" false "Nested"] false None]
  else [page [] false None].

(** The requests that change the properties of a page, and those that
    change its content blocks. *)
Definition isPropertiesUpdate {QueryParams} (r : Request QueryParams) : bool :=
  match r with
  | PagesUpdate _ _ => true
  | _ => false
  end.

Definition isContentChange {QueryParams} (r : Request QueryParams) : bool :=
  match r with
  | BlocksDelete _ | BlocksChildrenAppend _ _ => true
  | _ => false
  end.

(** The requests issued by a computation run in state [s]: what it
    added to the requests issued before. *)
Definition issued {World QueryParams A}
    (m : M World QueryParams A) (s : State World QueryParams)
    : list (Request QueryParams) :=
  drop (length (requests s)) (requests (m s).2).

(** Two calls of [update_prompt]: one that supplies the content only, one
    that supplies a name and tags only. *)
Definition contentOnlyArgs : UpdateArgs :=
  {| arg_prompt_id := Some (lit "w");
     arg_name := None;
     arg_detailed_prompt := Some (lit "New text.");
     arg_type := None;
     arg_tags := None |}.

Definition propertiesOnlyArgs : UpdateArgs :=
  {| arg_prompt_id := Some (lit "w");
     arg_name := Some (lit "Renamed");
     arg_detailed_prompt := None;
     arg_type := None;
     arg_tags := Some [lit "a"] |}.

(** A stand-in for the quoting of [JSON.stringify]: it is exact on
    strings that need no escape. *)
Definition quoteOnly (x : jsstring) : jsstring := [QUOTE] ++ x ++ [QUOTE].

(** The key under which the numbered items of depth [d] are counted. *)
Definition numberedKey (d : nat) : jsstring :=
  numberToString (Z.of_nat d) ++ lit "-numbered".

(** The number that a numbered item at depth [d] gets when it is the
    next block of the loop in state [st]: the stored counter when the
    previous block was a numbered item of this list, else 1. *)
Definition nextNumber (d : nat) (st : LoopState) : Z :=
  if bool_decide (currentListType st = Some (lit "numbered_list_item")
                  /\ currentListId st = numberedKey d)
  then numberOr1 (listNumbering st) (numberedKey d)
  else 1.

(** [EmittedFrom d n items texts]: [texts] are the lines of the numbered
    [items] at depth [d], numbered [n], [n + 1], ... in order; each line
    is the indentation, the number, a dot and a space, the text of the
    item, what its children gave, and a line feed. *)
Inductive EmittedFrom (d : nat) : Z -> list Block -> list jsstring -> Prop :=
| EmittedFrom_nil n : EmittedFrom d n [] []
| EmittedFrom_cons n b items child texts :
    EmittedFrom d (n + 1) items texts ->
    EmittedFrom d n (b :: items)
      ((repeatString (lit "  ") d ++ numberToString n ++ lit ". "
          ++ plainText (rich_text b) ++ child ++ [LF]) :: texts).

(** The keys that a call at depth [lvl] never writes, and two numbering
    objects that agree on such keys. *)
Definition Outside (lvl : nat) (k : jsstring) : Prop :=
  forall l, (lvl <= l)%nat -> k ≠ numberedKey l.

Definition SameOutside (lvl : nat) (ln ln' : gmap jsstring Z) : Prop :=
  forall k, Outside lvl k -> ln' !! k = ln !! k.

(** A page tree with numbered items below a numbered item. *)
Definition listTree (blockId : jsstring) : list (ListResponse Block) :=
  if bool_decide (blockId = lit "n1")
  then [page [textBlock "c1" "numbered_list_item" false "sub a";
              textBlock "c2" "numbered_list_item" false "sub b"] false None]
  else [page [] false None].

Definition listBlocks : list Block :=
  [textBlock "h" "heading_2" false "Steps";
   textBlock "n1" "numbered_list_item" true "A";
   textBlock "n2" "numbered_list_item" false "B";
   textBlock "x" "paragraph" false "P";
   textBlock "n3" "numbered_list_item" false "C";
   textBlock "n4" "numbered_list_item" false "D";
   textBlock "q" "quote" false "end"].

(** What a block, or a call, may do to the text and to the numbering
    object: the text grows at its end, and only the counters of this
    depth and deeper are written. *)
Definition Grows (lvl : nat) (c : jsstring) (ln : gmap jsstring Z)
    (r : jsstring * gmap jsstring Z) : Prop :=
  (exists out, r.1 = c ++ out) /\ SameOutside lvl ln r.2.

(** * The rest of the helpers *)

(** ** [formatPageId] *)

Definition HYPHEN : N := 45%N.

(** A relative index of [slice]: a negative index counts from the end. *)
Definition sliceIndex (len : nat) (i : Z) : nat :=
  if i <? 0 then Z.to_nat (Z.max (Z.of_nat len + i) 0)
  else Z.to_nat (Z.min i (Z.of_nat len)).

(** [s.slice(start, end)]; [end] absent means [s.length]. *)
Definition slice (s : jsstring) (start : Z) (end_ : option Z) : jsstring :=
  let len := length s in
  let from := sliceIndex len start in
  let to := match end_ with Some e => sliceIndex len e | None => len end in
  take (to - from) (drop from s).

(** [id.replace(/-/g, '')]. *)
Definition removeHyphens (s : jsstring) : jsstring :=
  filter (fun c => c ≠ HYPHEN) s.

(** [formatPageId(id)]: the id with hyphens in the places 8-4-4-4-12. *)
Definition formatPageId (id : jsstring) : jsstring :=
  let cleanId := removeHyphens id in
  if bool_decide (length cleanId = 32%nat) then
    slice cleanId 0 (Some 8) ++ [HYPHEN] ++ slice cleanId 8 (Some 12)
      ++ [HYPHEN] ++ slice cleanId 12 (Some 16) ++ [HYPHEN]
      ++ slice cleanId 16 (Some 20) ++ [HYPHEN] ++ slice cleanId 20 None
  else id.

Section MoreOperations.

Context {World Page QueryParams : Type}.

Abbreviation M' := (M World QueryParams).
Abbreviation Numbering := (gmap jsstring Z).
Abbreviation Server' :=
  (Server (World:=World) (Page:=Page) (QueryParams:=QueryParams)).

(** ** The twins that take the client as an argument

    [fetchAllBlocksWithClient] is [fetchAllBlocks] without the test of
    [this.notion]. *)
Definition fetchAllBlocksWithClient (fuel : nat) (blockId : jsstring)
    (notionClient : Client World Page QueryParams) : M' (list Block) :=
  fetchLoop fuel
    (fun cursor => call notionClient (BlocksChildrenList blockId 100 cursor))
    [] true None.

(** [extractContentFromBlocksWithClient]: its text is the text of
    [extractContentFromBlocks] with every [this.fetchAllBlocks(x)]
    replaced by [this.fetchAllBlocksWithClient(x, notionClient)] and
    every recursive call by a call of itself. *)
Fixpoint extractContentFromBlocksWithClient (fuel : nat) (blocks : list Block)
    (notionClient : Client World Page QueryParams)
    (listNumbering : Numbering) (indentLevel : nat)
    : M' (jsstring * Numbering) :=
  match fuel with
  | O => diverge
  | S fuel' =>
      st <- foldM (processBlock
                     (fun blockId =>
                        fetchAllBlocksWithClient fuel' blockId notionClient)
                     (fun childBlocks numbering level =>
                        extractContentFromBlocksWithClient fuel' childBlocks
                          notionClient numbering level)
                     indentLevel)
              blocks (initialState listNumbering) ;;
      ret (loopResult st)
  end.

(** ** The tool handler [readPrompt] *)

(** The [catch] clause that closes [readPrompt]. *)
Definition readPromptCatch (error : exn) : M' ToolResult :=
  if includes (exn_message error) (lit "Invalid database")
     || includes (exn_message error) (lit "Could not find database")
  then ret (errorResult DATABASE_ERROR_MESSAGE)
  else ret (errorResult (lit "Error reading prompt: " ++ exn_message error)).

(** The statements of the [try] block of [readPrompt].  The page that
    [pages.retrieve] returns is only passed to [extractPageInfo], whose
    result is not used. *)
Definition readPromptBody (fuel : nat) (this : Server') (promptId : jsstring)
    : M' ToolResult :=
  match activePromptBook this, notion this with
  | Some book, Some client =>
      if negb (truthy (notion_database_id book)) then
        ret (errorResult DATABASE_ERROR_MESSAGE)
      else
        (* First, get the page metadata *)
        call client (PagesRetrieve promptId) ;;;
        (* Then, get all page content (blocks) *)
        allBlocks <- fetchAllBlocks fuel this promptId ;;
        (* Extract the content as plain text *)
        r <- extractContentFromBlocks fuel this allBlocks ∅ 0 ;;
        ret {| result_text := r.1; isError := false |}
  | _, _ => ret (errorResult NO_ACTIVE_PROMPT_BOOK)
  end.

(** [readPrompt(args)]; [promptId] is [args?.prompt_id].  What the
    function writes to the console is not modelled. *)
Definition readPrompt (fuel : nat) (this : Server')
    (promptId : option jsstring) : M' ToolResult :=
  match promptId with
  | None | Some [] =>
      throw (McpError_InvalidParams (lit "Prompt ID is required"))
  | Some promptId =>
      tryCatch (readPromptBody fuel this promptId) readPromptCatch
  end.

(** ** Relating two computations *)

(** Two computations run in the same state end the same way, in the same
    state, with results related by [R]. *)
Definition Sim {A} (R : A -> A -> Prop) (m1 m2 : M' A) : Prop :=
  forall s,
    (m1 s).2 = (m2 s).2
    /\ match (m1 s).1, (m2 s).1 with
       | Returned a1, Returned a2 => R a1 a2
       | Thrown e1, Thrown e2 => e1 = e2
       | Diverged, Diverged => True
       | _, _ => False
       end.

End MoreOperations.

(** Two results of the decoder with the same text, and numbering objects
    related by [Rn]. *)
Definition sameText (Rn : gmap jsstring Z -> gmap jsstring Z -> Prop)
    (x y : jsstring * gmap jsstring Z) : Prop :=
  x.1 = y.1 /\ Rn x.2 y.2.

(** Two states of the loop of the decoder that differ in the numbering
    object only, and not in the number the next numbered item gets. *)
Definition sameLoop (d : nat) (st1 st2 : LoopState) : Prop :=
  content st1 = content st2
  /\ currentListType st1 = currentListType st2
  /\ currentListId st1 = currentListId st2
  /\ nextNumber d st1 = nextNumber d st2.

(** The requests that only read the remote. *)
Definition isRead {QueryParams} (r : Request QueryParams) : bool :=
  match r with
  | DatabasesQuery _ _ _ | DatabasesRetrieve _ | BlocksChildrenList _ _ _
  | PagesRetrieve _ => true
  | _ => false
  end.

(** A cut of the splitter: the piece ends with a space or a blank line,
    or it is [maxLength] long. *)
Definition endsAtBreak (maxLength : Z) (chunk : jsstring) : Prop :=
  Z.of_nat (length chunk) = maxLength
  \/ [SP] `suffix_of` chunk
  \/ [LF; LF] `suffix_of` chunk.

(** The line of a table row, and the separator below the header. *)
Definition tableLine (indent : jsstring) (row : Block) : jsstring :=
  indent ++ lit "| " ++ join (lit " | ") (map plainText (cells row))
    ++ lit " |" ++ [LF].

Definition tableSeparator (indent : jsstring) (row : Block) : jsstring :=
  indent ++ lit "| "
    ++ join (lit " | ") (map (fun _ => lit "---") (map plainText (cells row)))
    ++ lit " |" ++ [LF].

(** The block types whose branch never looks at the children. *)
Definition leafTypes : list jsstring :=
  lit <$> ["paragraph"; "heading_1"; "heading_2"; "heading_3"; "code";
           "quote"; "divider"; "image"; "bookmark"; "embed"; "video";
           "audio"; "file"; "pdf"; "equation"; "template";
           "link_to_page"]%string.

(** A remote whose listings always announce more, with a cursor. *)
Definition endlessClient : Client nat nat unit :=
  fun r w =>
    match r return outcome (Reply r) * nat with
    | BlocksChildrenList _ _ _ =>
        (Returned (page [textBlock "a" "paragraph" false "A"] true (Some [1%N])),
         S w)
    | r => scriptedClient [] wrapperTree r w
    end.

Definition endlessServer : Server :=
  {| notion := Some endlessClient; activePromptBook := None |}.

(** A remote that rejects every request. *)
Definition failingClient : Client nat nat unit :=
  fun r w => (Thrown (JsError (lit "Could not find page")), S w).

Definition failingServer : Server :=
  {| notion := Some failingClient;
     activePromptBook :=
       Some {| book_id := lit "book"; book_name := lit "Book";
               notion_token := lit "secret"; notion_database_id := lit "db" |} |}.

(** A page with three paragraphs, and a remote that refuses to delete
    the second. *)
Definition threeParagraphs (blockId : jsstring) : list (ListResponse Block) :=
  if bool_decide (blockId = lit "w")
  then [page [textBlock "p1" "paragraph" false "one";
              textBlock "p2" "paragraph" false "two";
              textBlock "p3" "paragraph" false "three"] false None]
  else [page [] false None].

Definition stubbornClient : Client nat nat unit :=
  fun r w =>
    match r return outcome (Reply r) * nat with
    | BlocksDelete b =>
        if bool_decide (b = lit "p2")
        then (Thrown (JsError (lit "conflict_error")), S w)
        else (Returned tt, S w)
    | r => scriptedClient [] threeParagraphs r w
    end.

Definition stubbornServer : Server :=
  {| notion := Some stubbornClient;
     activePromptBook :=
       Some {| book_id := lit "book"; book_name := lit "Book";
               notion_token := lit "secret"; notion_database_id := lit "db" |} |}.

(** A call of [update_prompt] that supplies a type only. *)
Definition typeOnlyArgs : UpdateArgs :=
  {| arg_prompt_id := Some (lit "w");
     arg_name := None;
     arg_detailed_prompt := None;
     arg_type := Some (lit "Coding");
     arg_tags := None |}.


(** * Properties of the splitter *)

Lemma searchDown_bounds (s pat : jsstring) (k : nat) :
  searchDown s pat k = -1 ∨ 0 ≤ searchDown s pat k ≤ Z.of_nat k.
Proof.
  induction k as [|k IH]; simpl; destruct (matchesAt s pat _); lia.
Qed.

Lemma lastIndexOf_bounds (s pat : jsstring) (position : Z) :
  lastIndexOf s pat position = -1
  ∨ (0 ≤ lastIndexOf s pat position ≤ Z.max position 0
     ∧ lastIndexOf s pat position + Z.of_nat (length pat) ≤ Z.of_nat (length s)).
Proof.
  unfold lastIndexOf. cbv zeta.
  destruct (Z.ltb_spec (Z.min (Z.max position 0)
              (Z.of_nat (length s) - Z.of_nat (length pat))) 0) as [|Hs];
    [by left|].
  destruct (searchDown_bounds s pat (Z.to_nat (Z.min (Z.max position 0)
              (Z.of_nat (length s) - Z.of_nat (length pat))))) as [->|Hb];
    [by left|right]. lia.
Qed.

Lemma gtHalf_spec (p m : Z) : gtHalf p m = true ↔ m < 2 * p.
Proof. unfold gtHalf. apply Z.ltb_lt. Qed.

(** The break point chosen in a text longer than [maxLength] lies in the
    text, after its first code unit, and at most two past [maxLength]. *)
Lemma findBreakPoint_bounds (r : jsstring) (m : Z) :
  1 ≤ m → m < Z.of_nat (length r) →
  1 ≤ findBreakPoint r m ≤ Z.of_nat (length r) ∧ findBreakPoint r m ≤ m + 2.
Proof.
  intros Hm Hlen. unfold findBreakPoint. cbv zeta.
  pose proof (lastIndexOf_bounds r [LF; LF] m) as H1.
  pose proof (lastIndexOf_bounds r (lit ". ") m) as H2.
  pose proof (lastIndexOf_bounds r (lit "! ") m) as H3.
  pose proof (lastIndexOf_bounds r (lit "? ") m) as H4.
  pose proof (lastIndexOf_bounds r [SP] m) as H5.
  change (length (lit ". ")) with 2%nat in H2.
  change (length (lit "! ")) with 2%nat in H3.
  change (length (lit "? ")) with 2%nat in H4.
  simpl length in H1, H5.
  repeat match goal with
         | |- context [gtHalf ?p ?m] =>
             let E := fresh "E" in
             destruct (gtHalf p m) eqn:E;
             [apply gtHalf_spec in E|]
         end; lia.
Qed.

Lemma substring_prefix (s : jsstring) (b : Z) :
  substring s 0 (Some b) = take (clampIndex (length s) b) s.
Proof.
  unfold substring. cbv zeta.
  replace (clampIndex (length s) 0) with 0%nat by (unfold clampIndex; lia).
  rewrite Nat.max_0_l, Nat.min_0_l, Nat.sub_0_r. reflexivity.
Qed.

Lemma substring_suffix (s : jsstring) (b : Z) :
  substring s b None = drop (clampIndex (length s) b) s.
Proof.
  unfold substring. cbv zeta.
  assert (clampIndex (length s) b ≤ length s)%nat by (unfold clampIndex; lia).
  rewrite Nat.min_l, Nat.max_r by lia.
  apply take_ge. rewrite length_drop. lia.
Qed.

(** Cutting at any index loses nothing. *)
Lemma substring_split (s : jsstring) (b : Z) :
  substring s 0 (Some b) ++ substring s b None = s.
Proof. rewrite substring_prefix, substring_suffix. apply take_drop. Qed.

(** What the loop does to a text, for a positive [maxLength]: it ends,
    and appends to [chunks] non-empty pieces of the text, in order. *)
Lemma splitLoop_spec (m : Z) (fuel : nat) :
  1 ≤ m →
  ∀ (r : jsstring) (chunks : list jsstring),
    (length r < fuel)%nat →
    ∃ out, splitLoop fuel r m chunks = Some (chunks ++ out)
           ∧ concat out = r
           ∧ Forall (fun c => c ≠ [] ∧ Z.of_nat (length c) ≤ m + 2) out
           ∧ (r ≠ [] → out ≠ []).
Proof.
  intros Hm. induction fuel as [|fuel IH]; intros r chunks Hf; [lia|].
  simpl.
  destruct (Z.ltb_spec 0 (Z.of_nat (length r))) as [Hpos|Hz].
  - destruct (Z.leb_spec (Z.of_nat (length r)) m) as [Hfit|Hbig].
    + exists [r]. split_and!; [done|simpl; by rewrite app_nil_r| |done].
      constructor; [|done]. split; [|lia]. intros ->. simpl in Hpos. lia.
    + destruct (findBreakPoint_bounds r m Hm Hbig) as [Hb Hb2].
      set (bp := findBreakPoint r m) in *.
      rewrite substring_prefix, substring_suffix.
      assert (Hc : clampIndex (length r) bp = Z.to_nat bp)
        by (unfold clampIndex; lia).
      rewrite Hc.
      destruct (IH (drop (Z.to_nat bp) r) (chunks ++ [take (Z.to_nat bp) r]))
        as (out & Hrun & Hcat & Hall & _).
      { rewrite length_drop. lia. }
      exists (take (Z.to_nat bp) r :: out).
      split_and!.
      * rewrite Hrun. by rewrite <- app_assoc.
      * simpl. rewrite Hcat. apply take_drop.
      * constructor; [|done]. split.
        -- intros E. apply (f_equal length) in E.
           rewrite length_take in E. simpl in E. lia.
        -- rewrite length_take. lia.
      * done.
  - exists []. destruct r; [|simpl in Hz; lia].
    split_and!; [by rewrite app_nil_r|done|done|done].
Qed.

(** More fuel does not change a result. *)
Lemma splitLoop_fuel_mono (fuel fuel' : nat) (r : jsstring) (m : Z)
    (chunks out : list jsstring) :
  (fuel ≤ fuel')%nat →
  splitLoop fuel r m chunks = Some out → splitLoop fuel' r m chunks = Some out.
Proof.
  revert fuel' r chunks.
  induction fuel as [|fuel IH]; intros fuel' r chunks Hle; [done|].
  destruct fuel' as [|fuel']; [lia|]. simpl.
  repeat case_match; try done. apply IH. lia.
Qed.

Lemma splitTextIntoChunks_spec (text : jsstring) (m : Z) :
  1 ≤ m →
  ∃ chunks, splitTextIntoChunks text m = Some chunks
            ∧ concat chunks = text
            ∧ chunks ≠ []
            ∧ (text ≠ [] → Forall (fun c => c ≠ []) chunks)
            ∧ Forall (fun c => Z.of_nat (length c) ≤ m + 2) chunks.
Proof.
  intros Hm. unfold splitTextIntoChunks.
  destruct (Z.leb_spec (Z.of_nat (length text)) m) as [Hfit|Hbig].
  - exists [text]. split_and!; [done|simpl; by rewrite app_nil_r|done| |].
    + intros. by constructor.
    + constructor; [lia|done].
  - destruct (splitLoop_spec m (S (length text)) Hm text [])
      as (out & Hrun & Hcat & Hall & Hne); [lia|].
    exists out. split_and!; [done|done| | |].
    + apply Hne. intros ->. simpl in Hbig. lia.
    + intros _. eapply Forall_impl; [exact Hall|]. by intros c [? _].
    + eapply Forall_impl; [exact Hall|]. by intros c [_ ?].
Qed.

(** The bound that the code does keep: no chunk is more than two code
    units over [maxLength]. *)
Lemma chunk_length_bound (text : jsstring) (m : Z) (chunks : list jsstring) :
  1 ≤ m -> splitTextIntoChunks text m = Some chunks ->
  Forall (fun c => Z.of_nat (length c) ≤ m + 2) chunks.
Proof.
  intros Hm Hrun.
  destruct (splitTextIntoChunks_spec text m Hm) as (chunks' & E & _ & _ & _ & H).
  congruence.
Qed.

(** C1.  Round trip of the splitter: for every text and every positive
    [maxLength], [splitTextIntoChunks] returns chunks whose concatenation,
    in order, is the text: nothing is dropped, repeated or added, and a
    break delimiter is in one chunk only. *)
Theorem chunks_concat (s : jsstring) (m : Z) :
  0 < m ->
  exists chunks, splitTextIntoChunks s m = Some chunks /\ concat chunks = s.
Proof.
  intros Hm.
  destruct (splitTextIntoChunks_spec s m ltac:(lia)) as (chunks & E & Hc & _).
  by exists chunks.
Qed.

Lemma chunks_concat_witness :
  exists chunks,
    splitTextIntoChunks (lit "One two. Three four! Five") 8 = Some chunks
    /\ concat chunks = lit "One two. Three four! Five".
Proof. apply chunks_concat. lia. Defined.

(** C10.  Progress of the splitter: for every [maxLength >= 1], the break
    point chosen in a text longer than [maxLength] is positive, so each
    iteration leaves a shorter text; the function returns, its result
    is not empty, and no chunk of a non-empty text is empty. *)
Theorem chunker_progress (text : jsstring) (maxLength : Z) :
  1 ≤ maxLength ->
  (forall remainingText,
      maxLength < Z.of_nat (length remainingText) ->
      0 < findBreakPoint remainingText maxLength
      /\ (length (substring remainingText
                    (findBreakPoint remainingText maxLength) None)
          < length remainingText)%nat)
  /\ exists chunks,
       splitTextIntoChunks text maxLength = Some chunks
       /\ chunks ≠ []
       /\ (text ≠ [] -> Forall (fun c => c ≠ []) chunks).
Proof.
  intros Hm. split.
  - intros r Hr. destruct (findBreakPoint_bounds r maxLength Hm Hr) as [Hb _].
    split; [lia|]. rewrite substring_suffix, length_drop.
    unfold clampIndex. lia.
  - destruct (splitTextIntoChunks_spec text maxLength Hm)
      as (chunks & E & _ & Hne & Hall & _).
    by exists chunks.
Qed.

Lemma chunker_progress_witness :
  exists chunks,
    splitTextIntoChunks (lit "aaaa bbbb cccc") 1 = Some chunks
    /\ chunks ≠ []
    /\ (lit "aaaa bbbb cccc" ≠ [] -> Forall (fun c => c ≠ []) chunks).
Proof. apply (chunker_progress (lit "aaaa bbbb cccc") 1). lia. Defined.

(** C2.  The bound of the chunks fails on the code: with the default
    [maxLength] of 2000, a text of 2000 letters followed by a paragraph
    break has a valid break point in the window (the break found at index
    2000 is past the midpoint), and the first chunk is 2002 code units
    long. *)
Theorem chunk_over_limit :
  let text := replicate 2000 97%N ++ [LF; LF] ++ lit "tail" in
  lastIndexOf text [LF; LF] 2000 = 2000
  /\ gtHalf (lastIndexOf text [LF; LF] 2000) 2000 = true
  /\ splitTextIntoChunks text 2000
     = Some [replicate 2000 97%N ++ [LF; LF]; lit "tail"]
  /\ length (replicate 2000 97%N ++ [LF; LF]) = 2002%nat.
Proof. vm_compute. auto. Qed.

(** The same slip with a sentence break and with a space, for a small
    [maxLength]. *)
Example chunk_over_limit_small :
  splitTextIntoChunks (lit "abcd. efgh") 4 = Some [lit "abcd. "; lit "efgh"]
  /\ splitTextIntoChunks (lit "abcd efgh") 4 = Some [lit "abcd "; lit "efgh"].
Proof. vm_compute. auto. Qed.

(** * The state-passing computations *)

Section MonadFacts.

Context {World Page QueryParams : Type}.

Abbreviation M' := (M World QueryParams).
Abbreviation State' := (State World QueryParams).

Lemma bind_returned {A B} (m : M' A) (k : A -> M' B) s b s' :
  bind m k s = (Returned b, s') ->
  exists a s1, m s = (Returned a, s1) /\ k a s1 = (Returned b, s').
Proof.
  unfold bind. destruct (m s) as [[a|e|] s1]; intros H; try discriminate.
  by exists a, s1.
Qed.

Lemma bind_step {A B} (m : M' A) (k : A -> M' B) s a s1 :
  m s = (Returned a, s1) -> bind m k s = k a s1.
Proof. unfold bind. by intros ->. Qed.

Lemma foldM_app {A B} (f : A -> B -> M' A) (l1 l2 : list B) (a : A) s :
  foldM f (l1 ++ l2) a s = bind (foldM f l1 a) (foldM f l2) s.
Proof.
  revert a s. induction l1 as [|b l1 IH]; intros a s; simpl; [done|].
  unfold bind. destruct (f a b s) as [[a'|e|] s1]; try done.
Qed.

Lemma foldM_app_returned {A B} (f : A -> B -> M' A) l1 l2 a s c s' :
  foldM f (l1 ++ l2) a s = (Returned c, s') ->
  exists b s1, foldM f l1 a s = (Returned b, s1)
               /\ foldM f l2 b s1 = (Returned c, s').
Proof. rewrite foldM_app. apply bind_returned. Qed.

Lemma foldM_cons_returned {A B} (f : A -> B -> M' A) x l a s c s' :
  foldM f (x :: l) a s = (Returned c, s') ->
  exists b s1, f a x s = (Returned b, s1)
               /\ foldM f l b s1 = (Returned c, s').
Proof. apply bind_returned. Qed.

(** ** Outcomes that do not depend on the state *)

Lemma si_ret {A} (a : A) : StateIndep (ret a : M' A).
Proof. done. Qed.

Lemma si_bind {A B} (m : M' A) (k : A -> M' B) :
  StateIndep m -> (forall a, StateIndep (k a)) -> StateIndep (bind m k).
Proof.
  intros Hm Hk s1 s2. unfold bind. specialize (Hm s1 s2).
  destruct (m s1) as [o1 t1], (m s2) as [o2 t2]. simpl in Hm. subst o2.
  destruct o1; [apply Hk|done|done].
Qed.

Lemma si_foldM {A B} (f : A -> B -> M' A) (l : list B) (a : A) :
  (forall a b, StateIndep (f a b)) -> StateIndep (foldM f l a).
Proof.
  intros Hf. revert a. induction l as [|b l IH]; intros a; simpl.
  - apply si_ret.
  - apply si_bind; [apply Hf|apply IH].
Qed.

(** ** Values returned *)

Lemma ens_ret {A} (a : A) (Q : A -> Prop) : Q a -> Ensures (ret a : M' A) Q.
Proof. intros HQ s a' s' [= <- _]. done. Qed.

Lemma ens_bind {A B} (m : M' A) (k : A -> M' B) (P : A -> Prop) (Q : B -> Prop) :
  Ensures m P -> (forall a, P a -> Ensures (k a) Q) -> Ensures (bind m k) Q.
Proof.
  intros Hm Hk s b s' (a & s1 & H1 & H2)%bind_returned.
  eapply Hk; [eapply Hm|]; done.
Qed.

Lemma ens_any {A} (m : M' A) : Ensures m (fun _ => True).
Proof. done. Qed.

Lemma ens_foldM {A B} (f : A -> B -> M' A) (Inv : A -> Prop) (l : list B) (a : A) :
  (forall a b, Inv a -> Ensures (f a b) Inv) -> Inv a -> Ensures (foldM f l a) Inv.
Proof.
  intros Hf. revert a. induction l as [|b l IH]; intros a Ha; simpl.
  - by apply ens_ret.
  - eapply ens_bind; [by apply Hf|]. intros a' Ha'. by apply IH.
Qed.

(** ** Requests issued *)

Lemma iss_ret {A} P (a : A) : Issues P (ret a : M' A).
Proof. intros s. exists []. by rewrite app_nil_r. Qed.

Lemma iss_throw {A} P e : Issues P (throw e : M' A).
Proof. intros s. exists []. by rewrite app_nil_r. Qed.

Lemma iss_diverge {A} P : Issues P (diverge : M' A).
Proof. intros s. exists []. by rewrite app_nil_r. Qed.

Lemma iss_call P (client : Client World Page QueryParams) r :
  P r -> Issues P (call client r).
Proof.
  intros HP s. exists [r]. unfold call.
  destruct (client r (world s)); simpl. split; [done|by constructor].
Qed.

Lemma iss_bind {A B} P (m : M' A) (k : A -> M' B) :
  Issues P m -> (forall a, Issues P (k a)) -> Issues P (bind m k).
Proof.
  intros Hm Hk s. unfold bind. destruct (Hm s) as (n1 & E1 & F1).
  destruct (m s) as [[a|e|] s1]; simpl in E1.
  - destruct (Hk a s1) as (n2 & E2 & F2). exists (n1 ++ n2).
    rewrite E2, E1, app_assoc. split; [done|by apply Forall_app].
  - by exists n1.
  - by exists n1.
Qed.

Lemma iss_tryCatch {A} P (m : M' A) (h : exn -> M' A) :
  Issues P m -> (forall e, Issues P (h e)) -> Issues P (tryCatch m h).
Proof.
  intros Hm Hh s. unfold tryCatch. destruct (Hm s) as (n1 & E1 & F1).
  destruct (m s) as [[a|e|] s1]; simpl in E1.
  - by exists n1.
  - destruct (Hh e s1) as (n2 & E2 & F2). exists (n1 ++ n2).
    rewrite E2, E1, app_assoc. split; [done|by apply Forall_app].
  - by exists n1.
Qed.

Lemma iss_foldM {A B} P (f : A -> B -> M' A) (l : list B) (a : A) :
  (forall a b, Issues P (f a b)) -> Issues P (foldM f l a).
Proof.
  intros Hf. revert a. induction l as [|b l IH]; intros a; simpl.
  - apply iss_ret.
  - apply iss_bind; [apply Hf|apply IH].
Qed.

End MonadFacts.

(** * The pagination fetchers *)

Section FetcherFacts.

Context {World Page QueryParams : Type}.

Abbreviation M' := (M World QueryParams).
Abbreviation State' := (State World QueryParams).

(** The loop follows a well-formed run page by page, keeping the records
    in the order served. *)
Lemma fetchLoop_continues {A} (request : option jsstring -> M' (ListResponse A))
    c s pages c' s' :
  Continues request c s pages c' s' ->
  forall fuel acc,
    fetchLoop (length pages + fuel) request acc true c s
    = fetchLoop fuel request (acc ++ concat pages) true c' s'.
Proof.
  induction 1 as [c s|c s r s1 next pages c' s' Hreq Hmore Hnext Hne _ IH];
    intros fuel acc.
  - simpl. by rewrite app_nil_r.
  - cbn [length Nat.add fetchLoop negb].
    rewrite (bind_step _ _ _ _ _ Hreq). cbv zeta.
    rewrite Hmore, Hnext. destruct next as [|x next]; [done|].
    cbn [orUndefined noCursor andb]. rewrite IH.
    cbn [concat]. by rewrite app_assoc.
Qed.

(** The page that ends the loop: no more pages, or more announced
    without a cursor. *)
Lemma fetchLoop_last {A} (request : option jsstring -> M' (ListResponse A))
    fuel acc c s r s' :
  request c s = (Returned r, s') ->
  has_more r = false \/ noCursor (next_cursor r) = true ->
  fetchLoop (S fuel) request acc true c s = (Returned (acc ++ results r), s').
Proof.
  intros Hreq Hstop. cbn [fetchLoop negb].
  rewrite (bind_step _ _ _ _ _ Hreq). cbv zeta.
  destruct (has_more r) eqn:Hm.
  - destruct Hstop as [|Hc]; [done|].
    replace (noCursor (orUndefined (next_cursor r))) with true
      by (destruct (next_cursor r) as [[|??]|]; done).
    done.
  - rewrite andb_false_r. by destruct fuel.
Qed.

Lemma fetchLoop_run {A} (request : option jsstring -> M' (ListResponse A))
    s pages c s1 r s2 fuel :
  Continues request None s pages c s1 ->
  request c s1 = (Returned r, s2) ->
  has_more r = false \/ noCursor (next_cursor r) = true ->
  (length pages < fuel)%nat ->
  fetchLoop fuel request [] true None s
  = (Returned (concat pages ++ results r), s2).
Proof.
  intros Hrun Hreq Hstop Hfuel.
  replace fuel with (length pages + S (fuel - S (length pages)))%nat by lia.
  rewrite (fetchLoop_continues _ _ _ _ _ _ Hrun).
  by apply fetchLoop_last.
Qed.

(** Each page of a run costs one request. *)
Lemma Continues_requests {A} (request : option jsstring -> M' (ListResponse A))
    c s pages c' s' :
  (forall c s, length (requests (request c s).2) = S (length (requests s))) ->
  Continues request c s pages c' s' ->
  length (requests s') = (length (requests s) + length pages)%nat.
Proof.
  intros Hone. induction 1 as [|c s r s1 next pages c' s' Hreq _ _ _ _ IH];
    simpl; [lia|].
  rewrite IH. specialize (Hone c s). rewrite Hreq in Hone. simpl in Hone. lia.
Qed.

Lemma call_requests (client : Client World Page QueryParams) r s :
  requests (call client r s).2 = requests s ++ [r].
Proof. unfold call. by destruct (client r (world s)). Qed.

Lemma call_requests_length (client : Client World Page QueryParams) r s :
  length (requests (call client r s).2) = S (length (requests s)).
Proof. rewrite call_requests, length_app. simpl. lia. Qed.

Lemma call_requests_of (client : Client World Page QueryParams) r s o s' :
  call client r s = (o, s') -> length (requests s') = S (length (requests s)).
Proof.
  intros H. pose proof (call_requests client r s) as E. rewrite H in E.
  simpl in E. rewrite E, length_app. simpl. lia.
Qed.

End FetcherFacts.

(** * The claims about the fetchers *)

Section FetcherClaims.

Context {World Page QueryParams : Type}.

(** C3.  Safety valve of the fetchers: after any well-formed run of pages,
    a page that announces more ([has_more]) without a cursor ([null],
    absent, or empty) ends [fetchAllResults] and [fetchAllBlocks]: the
    records of that page are kept, the function returns, and the request
    that fetched this page is the last one issued. *)
Theorem fetchers_stop_without_cursor
    (this : Server (World:=World) (Page:=Page) (QueryParams:=QueryParams))
    (client : Client World Page QueryParams)
    (Hclient : notion this = Some client) :
  (forall queryParams pages c s s1 r s2 fuel,
      Continues (queryRequest client queryParams) None s pages c s1 ->
      queryRequest client queryParams c s1 = (Returned r, s2) ->
      has_more r = true -> noCursor (next_cursor r) = true ->
      (length pages < fuel)%nat ->
      fetchAllResults fuel this queryParams s
      = (Returned (concat pages ++ results r), s2)
      /\ length (requests s2) = S (length (requests s) + length pages))
  /\ (forall blockId pages c s s1 r s2 fuel,
      Continues (childrenRequest client blockId) None s pages c s1 ->
      childrenRequest client blockId c s1 = (Returned r, s2) ->
      has_more r = true -> noCursor (next_cursor r) = true ->
      (length pages < fuel)%nat ->
      fetchAllBlocks fuel this blockId s
      = (Returned (concat pages ++ results r), s2)
      /\ length (requests s2) = S (length (requests s) + length pages)).
Proof.
  split.
  - intros q pages c s s1 r s2 fuel Hrun Hreq Hmore Hcur Hfuel.
    unfold fetchAllResults. rewrite Hclient. split.
    + eapply (fetchLoop_run (queryRequest client q)); eauto.
    + apply Continues_requests in Hrun.
      * rewrite <- Hrun.
        apply (call_requests_of client (DatabasesQuery q 100 c) s1
                 (Returned r) s2 Hreq).
      * intros c0 s0.
        apply (call_requests_length client (DatabasesQuery q 100 c0)).
  - intros b pages c s s1 r s2 fuel Hrun Hreq Hmore Hcur Hfuel.
    unfold fetchAllBlocks. rewrite Hclient. split.
    + eapply (fetchLoop_run (childrenRequest client b)); eauto.
    + apply Continues_requests in Hrun.
      * rewrite <- Hrun.
        apply (call_requests_of client (BlocksChildrenList b 100 c) s1
                 (Returned r) s2 Hreq).
      * intros c0 s0.
        apply (call_requests_length client (BlocksChildrenList b 100 c0)).
Qed.

(** C4.  Completeness of [fetchAllResults]: when the remote serves the
    records in pages, every page but the last announcing more with a
    cursor and the last announcing no more, the result is the
    concatenation of the pages in the order served: all the records,
    none twice, none moved. *)
Theorem fetchAllResults_complete
    (this : Server (World:=World) (Page:=Page) (QueryParams:=QueryParams))
    (client : Client World Page QueryParams) (queryParams : QueryParams)
    (pages : list (list Page)) (c : option jsstring)
    (s s1 s2 : State World QueryParams) (last : ListResponse Page)
    (fuel : nat) :
  notion this = Some client ->
  Continues (queryRequest client queryParams) None s pages c s1 ->
  queryRequest client queryParams c s1 = (Returned last, s2) ->
  has_more last = false ->
  (length pages < fuel)%nat ->
  fetchAllResults fuel this queryParams s
  = (Returned (concat (pages ++ [results last])), s2)
  /\ length (concat (pages ++ [results last]))
     = sum_list (length <$> (pages ++ [results last])).
Proof.
  intros Hclient Hrun Hreq Hlast Hfuel. split.
  - unfold fetchAllResults. rewrite Hclient.
    rewrite concat_app. simpl. rewrite app_nil_r.
    eapply (fetchLoop_run (queryRequest client queryParams)); eauto.
  - generalize (pages ++ [results last]). intros l.
    induction l as [|x l IH]; simpl; [done|].
    rewrite length_app, IH. done.
Qed.

End FetcherClaims.

Lemma fetchers_stop_without_cursor_witness :
  fetchAllResults 5 (scriptedServer noCursorPages noCursorTree) tt freshState
  = (Returned [1; 2]%nat,
     {| world := 1%nat; requests := [DatabasesQuery tt 100 None] |})
  /\ (fetchAllBlocks 5 (scriptedServer noCursorPages noCursorTree) (lit "x")
        freshState).1
     = Returned [textBlock "a" "paragraph" false "A"].
Proof.
  pose proof (fetchers_stop_without_cursor
                (scriptedServer noCursorPages noCursorTree)
                (scriptedClient noCursorPages noCursorTree) eq_refl)
    as [Hq Hb].
  split.
  - refine (proj1 (Hq tt [] None freshState freshState _ _ 5%nat
                      (Continues_nil _ _ _) eq_refl eq_refl eq_refl _)).
    simpl. lia.
  - refine (f_equal fst
              (proj1 (Hb (lit "x") [] None freshState freshState _ _ 5%nat
                         (Continues_nil _ _ _) eq_refl eq_refl eq_refl _))).
    simpl. lia.
Defined.

Lemma fetchAllResults_complete_witness :
  (fetchAllResults 3 (scriptedServer threePages noCursorTree) tt freshState).1
  = Returned [1; 2; 3; 4; 5]%nat.
Proof.
  refine (f_equal fst
    (proj1 (fetchAllResults_complete
       (scriptedServer threePages noCursorTree)
       (scriptedClient threePages noCursorTree) tt
       [[1; 2]; [3]]%nat (Some [2%N]) freshState _ _ _ 3%nat
       eq_refl _ eq_refl eq_refl _))).
  - eapply (Continues_cons _ _ _ (page [1; 2]%nat true (Some [1%N])) _ [1%N]);
      [reflexivity|reflexivity|reflexivity|discriminate|].
    eapply (Continues_cons _ _ _ (page [3]%nat true (Some [2%N])) _ [2%N]);
      [reflexivity|reflexivity|reflexivity|discriminate|].
    apply Continues_nil.
  - simpl. lia.
Defined.

(** * The decoder *)

Section DecoderFacts.

Context {World Page QueryParams : Type}.

Abbreviation M' := (M World QueryParams).
Abbreviation Numbering := (gmap jsstring Z).

Variable fetch : jsstring -> M' (list Block).
Variable recurse : list Block -> Numbering -> nat -> M' (jsstring * Numbering).

Lemma handled_type (k : jsstring) (b : Block) :
  type b ∉ handledTypes -> bool_decide (k ∈ handledTypes) = true -> type b ≠ k.
Proof.
  intros Hb Hk E. rewrite E in Hb. apply Hb. by apply bool_decide_eq_true in Hk.
Qed.

(** The branches of [renderBlock] that the claims single out. *)
Lemma renderBlock_paragraph d b c ln :
  type b = lit "paragraph" ->
  renderBlock fetch recurse d b c ln
  = ret (c ++ repeatString (lit "  ") d ++ plainText (rich_text b) ++ [LF; LF], ln).
Proof. intros H. unfold renderBlock. cbv beta zeta. rewrite H. reflexivity. Qed.

Lemma renderBlock_numbered d b c ln :
  type b = lit "numbered_list_item" ->
  renderBlock fetch recurse d b c ln
  = let listId := listIdOf d b in
    let number := numberOr1 ln listId in
    let c1 := c ++ repeatString (lit "  ") d ++ numberToString number
                ++ lit ". " ++ plainText (rich_text b) in
    let ln1 := <[listId := number + 1]> ln in
    if has_children b then
      child <- (childBlocks <- fetch (id b) ;; recurse childBlocks ln1 (S d)) ;;
      ret ((if truthy (trim child.1) then c1 ++ [LF] ++ child.1 else c1) ++ [LF],
           child.2)
    else ret (c1 ++ [LF], ln1).
Proof. intros H. unfold renderBlock. cbv beta zeta. rewrite H. reflexivity. Qed.

Lemma renderBlock_other d b c ln :
  type b ∉ handledTypes -> has_children b = true ->
  renderBlock fetch recurse d b c ln
  = (child <- (childBlocks <- fetch (id b) ;; recurse childBlocks ln d) ;;
     ret (c ++ child.1, child.2)).
Proof.
  intros Hb Hc. unfold renderBlock, isNumberedList, isBulletedList. cbv beta zeta.
  rewrite !(bool_decide_eq_false_2 (type b = _))
    by (apply handled_type; [done|vm_compute; reflexivity]).
  rewrite Hc. reflexivity.
Qed.

End DecoderFacts.

Section DecoderClaims.

Context {World Page QueryParams : Type}.

Abbreviation M' := (M World QueryParams).
Abbreviation Numbering := (gmap jsstring Z).
Abbreviation Server' :=
  (Server (World:=World) (Page:=Page) (QueryParams:=QueryParams)).

(** ** Determinism *)

Lemma si_renderBlock (fetch : jsstring -> M' (list Block))
    (recurse : list Block -> Numbering -> nat -> M' (jsstring * Numbering))
    d b c ln :
  (forall i, StateIndep (fetch i)) ->
  (forall bs ln d, StateIndep (recurse bs ln d)) ->
  StateIndep (renderBlock fetch recurse d b c ln).
Proof.
  intros Hf Hr. unfold renderBlock. cbv beta zeta.
  repeat first
    [ apply si_ret
    | apply Hf
    | apply Hr
    | apply si_bind; [|intros ?]
    | apply si_foldM; intros ? ?
    | match goal with
      | |- StateIndep (if ?x then _ else _) => destruct x
      end ].
Qed.

Lemma si_extract (this : Server') (fuel : nat) :
  FixedChildFetch this ->
  forall blocks ln d,
    StateIndep (extractContentFromBlocks fuel this blocks ln d).
Proof.
  intros Hfix. induction fuel as [|fuel IH]; intros blocks ln d; [done|].
  cbn [extractContentFromBlocks].
  apply si_bind; [|intros; apply si_ret].
  apply si_foldM. intros st b. unfold processBlock.
  apply si_bind; [|intros; apply si_ret].
  apply si_renderBlock; [apply Hfix|apply IH].
Qed.

(** C8.  Determinism of the decoder: when the child-fetch is a fixed
    function of the block id, two runs of [extractContentFromBlocks] on
    the same blocks, in whatever states the remote is, end the same way
    and return the same text. *)
Theorem decode_deterministic (this : Server') (fuel : nat)
    (blocks : list Block) (s1 s2 : State World QueryParams) :
  FixedChildFetch this ->
  (extractContentFromBlocks fuel this blocks ∅ 0 s1).1
  = (extractContentFromBlocks fuel this blocks ∅ 0 s2).1.
Proof. intros Hfix. by apply si_extract. Qed.

(** A remote whose listings do not depend on its state gives a fixed
    child-fetch. *)
Lemma FixedChildFetch_intro (this : Server') :
  (forall client, notion this = Some client ->
     forall blockId pageSize cursor w1 w2,
       (client (BlocksChildrenList blockId pageSize cursor) w1).1
       = (client (BlocksChildrenList blockId pageSize cursor) w2).1) ->
  FixedChildFetch this.
Proof.
  intros Hc fuel blockId. unfold fetchAllBlocks.
  destruct (notion this) as [client|] eqn:E; [|done].
  specialize (Hc client eq_refl).
  generalize (@nil Block) true (@None jsstring).
  induction fuel as [|fuel IH]; intros acc more cursor.
  - simpl. destruct more; done.
  - cbn [fetchLoop]. destruct more; [|done]. cbn [negb].
    apply si_bind.
    + intros s1 s2. unfold call.
      specialize (Hc blockId 100 cursor (world s1) (world s2)).
      destruct (client _ (world s1)), (client _ (world s2)). done.
    + intros r. cbv zeta. destruct (_ && _); [done|apply IH].
Qed.

(** ** The scenario and the unknown kinds *)

(** C6.  The decode scenario: a heading "Title", a paragraph "Body
    text." and the numbered items "First" and "Second" decode to the
    text of the specification, whatever the remote. *)
Theorem decode_scenario (this : Server') (fuel : nat)
    (s : State World QueryParams) :
  (extractContentFromBlocks (S fuel) this scenarioBlocks ∅ 0 s).1
  = Returned (scenarioText, {[ lit "0-numbered" := 3 ]}).
Proof. vm_compute. reflexivity. Qed.

(** C7.  Blocks of unknown kinds: a block with children whose type has
    no branch of its own adds nothing but the decoded text of its
    children, at the same depth; with one paragraph as its only child,
    the result is the text of that paragraph. *)
Theorem unknown_kind_passthrough (this : Server') (fuel : nat) (b : Block)
    (ln : Numbering) (d : nat) :
  type b ∉ handledTypes ->
  has_children b = true ->
  (forall s,
      extractContentFromBlocks (S fuel) this [b] ln d s
      = (childBlocks <- fetchAllBlocks fuel this (id b) ;;
         extractContentFromBlocks fuel this childBlocks ln d) s)
  /\ (forall p s s',
      type p = lit "paragraph" ->
      fetchAllBlocks (S fuel) this (id b) s = (Returned [p], s') ->
      extractContentFromBlocks (S (S fuel)) this [b] ln d s
      = (Returned (repeatString (lit "  ") d ++ plainText (rich_text p)
                     ++ [LF; LF], ln), s')).
Proof.
  intros Hb Hc.
  assert (Heq : forall fuel s,
      extractContentFromBlocks (S fuel) this [b] ln d s
      = (childBlocks <- fetchAllBlocks fuel this (id b) ;;
         extractContentFromBlocks fuel this childBlocks ln d) s).
  { intros f s. cbn [extractContentFromBlocks foldM]. unfold processBlock.
    rewrite renderBlock_other by done.
    assert (Hn : isNumberedList b || isBulletedList b = false).
    { unfold isNumberedList, isBulletedList.
      rewrite !(bool_decide_eq_false_2 (type b = _))
        by (apply handled_type; [done|vm_compute; reflexivity]).
      done. }
    unfold trackListContext. rewrite Hn. cbn [content listNumbering initialState].
    unfold bind, ret, loopResult. cbn [content listNumbering].
    destruct (fetchAllBlocks f this (id b) s) as [[cb|e|] s1]; try done.
    destruct (extractContentFromBlocks f this cb ln d s1)
      as [[[c' ln']|e|] s2]; done. }
  split; [apply Heq|].
  intros p s s' Hp Hfetch. rewrite Heq.
  rewrite (bind_step _ _ _ _ _ Hfetch).
  cbn [extractContentFromBlocks foldM]. unfold processBlock.
  rewrite renderBlock_paragraph by done.
  assert (Hn : isNumberedList p || isBulletedList p = false).
  { unfold isNumberedList, isBulletedList. rewrite Hp. done. }
  unfold trackListContext. rewrite Hn. reflexivity.
Qed.

End DecoderClaims.

Lemma decode_deterministic_witness :
  (extractContentFromBlocks 3 (scriptedServer [] wrapperTree)
     [textBlock "w" "unsupported" true ""] ∅ 0 freshState).1
  = (extractContentFromBlocks 3 (scriptedServer [] wrapperTree)
       [textBlock "w" "unsupported" true ""] ∅ 0
       {| world := 7%nat; requests := [PagesRetrieve (lit "w")] |}).1.
Proof.
  apply decode_deterministic.
  apply FixedChildFetch_intro. intros client [= <-]. reflexivity.
Defined.

Lemma unknown_kind_passthrough_witness :
  (extractContentFromBlocks 2 (scriptedServer [] wrapperTree)
     [textBlock "w" "unsupported" true ""] ∅ 0 freshState).1
  = Returned (lit "Nested" ++ [LF; LF], ∅).
Proof.
  refine (f_equal fst
    (proj2 (unknown_kind_passthrough (scriptedServer [] wrapperTree) 0
              (textBlock "w" "unsupported" true "") ∅ 0 _ eq_refl)
       (textBlock "p" "paragraph" false "Nested") freshState _
       eq_refl eq_refl)).
  apply (bool_decide_eq_false_1 (_ ∈ handledTypes)). vm_compute. reflexivity.
Defined.

(** * List numbering *)

Lemma lit_inj (x y : string) : lit x = lit y -> x = y.
Proof.
  unfold lit. intros H.
  rewrite <- (string_of_list_ascii_of_string x),
          <- (string_of_list_ascii_of_string y).
  f_equal. revert H.
  generalize (list_ascii_of_string x) (list_ascii_of_string y).
  intros l. induction l as [|a l IH]; intros [|a' l'] H; try done.
  simpl in H. injection H as Ha Hl. f_equal; [|by apply IH].
  rewrite <- (ascii_N_embedding a), <- (ascii_N_embedding a'). by rewrite Ha.
Qed.

Lemma numberToString_inj (x y : Z) : numberToString x = numberToString y -> x = y.
Proof. intros H%lit_inj. by apply (inj pretty) in H. Qed.

Lemma numberedKey_inj (d d' : nat) : numberedKey d = numberedKey d' -> d = d'.
Proof.
  unfold numberedKey. intros H%app_inv_tail%numberToString_inj. lia.
Qed.

Lemma Outside_numberedKey (lvl d : nat) : (d < lvl)%nat -> Outside lvl (numberedKey d).
Proof. intros Hd l Hl E%numberedKey_inj. lia. Qed.

Lemma listIdOf_numbered (d : nat) (b : Block) :
  type b = lit "numbered_list_item" -> listIdOf d b = numberedKey d.
Proof.
  intros H. unfold listIdOf, isNumberedList. rewrite H. reflexivity.
Qed.

Lemma SameOutside_refl lvl ln : SameOutside lvl ln ln.
Proof. done. Qed.

Lemma SameOutside_trans lvl ln1 ln2 ln3 :
  SameOutside lvl ln1 ln2 -> SameOutside lvl ln2 ln3 -> SameOutside lvl ln1 ln3.
Proof. intros H1 H2 k Hk. by rewrite H2, H1. Qed.

Lemma SameOutside_mono lvl l ln ln' :
  (lvl <= l)%nat -> SameOutside l ln ln' -> SameOutside lvl ln ln'.
Proof. intros Hl H k Hk. apply H. intros l' Hl'. apply Hk. lia. Qed.

Lemma SameOutside_insert lvl ln v :
  SameOutside lvl ln (<[numberedKey lvl := v]> ln).
Proof.
  intros k Hk. apply lookup_insert_ne. intros E. by apply (Hk lvl).
Qed.

Section NumberingFacts.

Context {World Page QueryParams : Type}.

Abbreviation M' := (M World QueryParams).
Abbreviation Numbering := (gmap jsstring Z).
Abbreviation Server' :=
  (Server (World:=World) (Page:=Page) (QueryParams:=QueryParams)).

Section Body.

Variable fetch : jsstring -> M' (list Block).
Variable recurse : list Block -> Numbering -> nat -> M' (jsstring * Numbering).
Variable lvl : nat.
Hypothesis Hrec : forall bs ln l, (lvl <= l)%nat ->
  Ensures (recurse bs ln l) (fun r => SameOutside l ln r.2).

Lemma ens_children (i : jsstring) (ln0 ln : Numbering) (l : nat) :
  (lvl <= l)%nat -> SameOutside lvl ln0 ln ->
  Ensures (childBlocks <- fetch i ;; recurse childBlocks ln l)
          (fun r => SameOutside lvl ln0 r.2).
Proof.
  intros Hl Hln. eapply ens_bind; [apply ens_any|]. intros bs _ s r s' Hr.
  eapply SameOutside_trans; [exact Hln|].
  eapply SameOutside_mono; [exact Hl|]. eapply Hrec; done.
Qed.

Lemma Grows_ret (c out : jsstring) (ln0 ln : Numbering) :
  SameOutside lvl ln0 ln -> Ensures (ret (c ++ out, ln) : M' _) (Grows lvl c ln0).
Proof. intros H. apply ens_ret. split; [by exists out|done]. Qed.

Lemma Grows_listItem (b : Block) (c out : jsstring) (ln0 ln : Numbering) :
  SameOutside lvl ln0 ln ->
  Ensures
    (if has_children b then
       child <- (childBlocks <- fetch (id b) ;; recurse childBlocks ln (S lvl)) ;;
       ret ((if truthy (trim child.1) then (c ++ out) ++ [LF] ++ child.1
             else c ++ out) ++ [LF], child.2)
     else ret ((c ++ out) ++ [LF], ln))
    (Grows lvl c ln0).
Proof.
  intros H. destruct (has_children b).
  - eapply ens_bind; [apply (ens_children _ ln0); [lia|done]|].
    intros child Hc. apply ens_ret. split; [|done]. simpl.
    destruct (truthy _); rewrite <- ?app_assoc; eauto.
  - apply ens_ret. split; [|done]. simpl. rewrite <- app_assoc. eauto.
Qed.

Lemma Grows_withChildren (b : Block) (c out : jsstring) (ln : Numbering) :
  Ensures
    (if has_children b then
       child <- (childBlocks <- fetch (id b) ;; recurse childBlocks ln (S lvl)) ;;
       ret ((c ++ out) ++ child.1, child.2)
     else ret (c ++ out, ln))
    (Grows lvl c ln).
Proof.
  destruct (has_children b).
  - eapply ens_bind; [apply (ens_children _ ln); [lia|done]|].
    intros child Hc. apply ens_ret. split; [|done]. simpl.
    rewrite <- app_assoc. eauto.
  - by apply Grows_ret.
Qed.

Lemma Grows_inline (b : Block) (c : jsstring) (ln : Numbering) :
  Ensures
    (child <- (childBlocks <- fetch (id b) ;; recurse childBlocks ln lvl) ;;
     ret (c ++ child.1, child.2))
    (Grows lvl c ln).
Proof.
  eapply ens_bind; [apply (ens_children _ ln); [lia|done]|].
  intros child Hc. apply ens_ret. split; [|done]. simpl. eauto.
Qed.

Lemma Grows_unchanged (c : jsstring) (ln : Numbering) :
  Ensures (ret (c, ln) : M' _) (Grows lvl c ln).
Proof. apply ens_ret. split; [exists []; by rewrite app_nil_r|done]. Qed.

(** Every branch of [renderBlock] appends to the text and writes no
    counter of a shallower depth. *)
Lemma renderBlock_Grows (b : Block) (c : jsstring) (ln : Numbering) :
  Ensures (renderBlock fetch recurse lvl b c ln) (Grows lvl c ln).
Proof.
  unfold renderBlock. cbv beta zeta.
  repeat match goal with
         | |- Ensures (if bool_decide (type b = ?k) then _ else _) _ =>
             destruct (bool_decide (type b = k)) eqn:?
         | |- Ensures (if ?x || ?y then _ else _) _ =>
             destruct (x || y) eqn:?
         end;
    try (apply Grows_ret; done).
  - apply Grows_listItem. done.
  - match goal with H : bool_decide _ = true |- _ =>
      apply bool_decide_eq_true in H; rewrite (listIdOf_numbered _ _ H) end.
    apply Grows_listItem. apply SameOutside_insert.
  - apply Grows_withChildren.
  - apply Grows_withChildren.
  - apply Grows_withChildren.
  - destruct (has_children b); [|apply Grows_unchanged].
    eapply ens_bind; [apply ens_any|]. intros rows _. by apply Grows_ret.
  - destruct (has_children b); [|apply Grows_unchanged]. apply Grows_inline.
  - destruct (_ && _).
    + eapply ens_bind; [apply ens_any|]. intros columns _.
      apply (ens_foldM _ (Grows lvl c ln)); [|].
      * intros acc column [[out Hout] Hacc].
        destruct (_ && _); [|apply ens_ret; split; [by exists out|done]].
        eapply ens_bind; [apply ens_any|]. intros columnBlocks _.
        eapply ens_bind; [apply (Hrec _ _ lvl); lia|]. intros r Hr.
        apply ens_ret. split; simpl.
        -- rewrite Hout, <- app_assoc. eauto.
        -- by eapply SameOutside_trans.
      * split; [exists []; by rewrite app_nil_r|done].
    + destruct (_ && _); [apply Grows_inline|apply Grows_unchanged].
Qed.

Lemma trackListContext_content (b : Block) (st : LoopState) :
  content (trackListContext lvl b st) = content st.
Proof. unfold trackListContext. by repeat case_match. Qed.

Lemma trackListContext_SameOutside (b : Block) (st : LoopState) :
  SameOutside lvl (listNumbering st) (listNumbering (trackListContext lvl b st)).
Proof.
  unfold trackListContext. destruct (isNumberedList b) eqn:Hn; simpl.
  - apply bool_decide_eq_true in Hn. rewrite (listIdOf_numbered _ _ Hn).
    destruct (_ || _); simpl; [apply SameOutside_insert|done].
  - by repeat case_match.
Qed.

Lemma processBlock_Grows (st : LoopState) (b : Block) :
  Ensures (processBlock fetch recurse lvl st b)
    (fun st' => (exists out, content st' = content st ++ out)
                /\ SameOutside lvl (listNumbering st) (listNumbering st')).
Proof.
  unfold processBlock. eapply ens_bind; [apply renderBlock_Grows|].
  intros r [[out Hout] Hln]. apply ens_ret. simpl. split.
  - exists out. by rewrite Hout, trackListContext_content.
  - eapply SameOutside_trans; [apply trackListContext_SameOutside|done].
Qed.

Lemma foldM_processBlock_Grows (bs : list Block) (st : LoopState) :
  Ensures (foldM (processBlock fetch recurse lvl) bs st)
    (fun st' => (exists out, content st' = content st ++ out)
                /\ SameOutside lvl (listNumbering st) (listNumbering st')).
Proof.
  apply (ens_foldM _ (fun st' => (exists out, content st' = content st ++ out)
           /\ SameOutside lvl (listNumbering st) (listNumbering st'))).
  - intros a b [[out Hout] Hln] s a' s' Hrun.
    destruct (processBlock_Grows a b s a' s' Hrun) as [[out' Hout'] Hln'].
    split.
    + exists (out ++ out'). by rewrite Hout', Hout, app_assoc.
    + by eapply SameOutside_trans.
  - split; [exists []; by rewrite app_nil_r|done].
Qed.

(** ** The counter of a run of numbered items *)

Lemma trackListContext_numbered (b : Block) (st : LoopState) :
  type b = lit "numbered_list_item" ->
  currentListType (trackListContext lvl b st) = Some (lit "numbered_list_item")
  /\ currentListId (trackListContext lvl b st) = numberedKey lvl
  /\ numberOr1 (listNumbering (trackListContext lvl b st)) (numberedKey lvl)
     = nextNumber lvl st.
Proof.
  intros Hb. unfold trackListContext, nextNumber.
  rewrite (listIdOf_numbered _ _ Hb). unfold isNumberedList. rewrite Hb.
  rewrite (bool_decide_eq_true_2 (lit "numbered_list_item" = _)) by done.
  cbn [orb]. repeat case_bool_decide; simpl; try tauto.
  all: unfold numberOr1; rewrite lookup_insert_eq; tauto.
Qed.

Lemma trackListContext_other (b : Block) (st : LoopState) :
  type b ≠ lit "numbered_list_item" ->
  currentListType (trackListContext lvl b st) ≠ Some (lit "numbered_list_item").
Proof.
  intros Hb. unfold trackListContext.
  destruct (_ || _); [|done].
  destruct (bool_decide (currentListType st ≠ _)) eqn:E; simpl; [congruence|].
  apply bool_decide_eq_false in E.
  destruct (bool_decide (currentListId st ≠ _)); simpl; [congruence|].
  intros E'. apply E. congruence.
Qed.

Lemma nextNumber_stored (c : jsstring) (cur : option jsstring)
    (curId : jsstring) (ln : Numbering) (v : Z) :
  cur = Some (lit "numbered_list_item") -> curId = numberedKey lvl ->
  ln !! numberedKey lvl = Some v -> v ≠ 0 ->
  nextNumber lvl {| content := c; currentListType := cur;
                    currentListId := curId; listNumbering := ln |} = v.
Proof.
  intros -> -> Hl Hv. unfold nextNumber. simpl.
  rewrite bool_decide_eq_true_2 by done. unfold numberOr1. rewrite Hl.
  by destruct (Z.eqb_spec v 0).
Qed.

(** A numbered item takes the next number of the loop state and leaves
    the one after it. *)
Lemma processBlock_numbered (st : LoopState) (b : Block) s st' s' :
  type b = lit "numbered_list_item" ->
  1 <= nextNumber lvl st ->
  processBlock fetch recurse lvl st b s = (Returned st', s') ->
  (exists child,
      content st'
      = content st
          ++ (repeatString (lit "  ") lvl ++ numberToString (nextNumber lvl st)
                ++ lit ". " ++ plainText (rich_text b) ++ child ++ [LF]))
  /\ nextNumber lvl st' = nextNumber lvl st + 1.
Proof.
  intros Hb Hpos. unfold processBlock.
  rewrite renderBlock_numbered by done. cbv zeta.
  rewrite (listIdOf_numbered _ _ Hb).
  destruct (trackListContext_numbered b st Hb) as (Hty & Hid & Hnum).
  rewrite Hnum, trackListContext_content.
  set (n := nextNumber lvl st) in *.
  set (st1 := trackListContext lvl b st) in *.
  destruct (has_children b).
  - intros (r & s1 & Hr & Hret)%bind_returned.
    apply bind_returned in Hr as (child & s2 & Hchild & Hret').
    injection Hret' as <- <-. injection Hret as <- <-. simpl.
    assert (Hkey : child.2 !! numberedKey lvl = Some (n + 1)).
    { apply bind_returned in Hchild as (bs & s3 & _ & Hrec').
      rewrite (Hrec _ _ (S lvl) ltac:(lia) _ _ _ Hrec' (numberedKey lvl)).
      - apply lookup_insert_eq.
      - apply Outside_numberedKey. lia. }
    split.
    + destruct (truthy _).
      * exists ([LF] ++ child.1). by rewrite <- !app_assoc.
      * exists []. by rewrite <- !app_assoc.
    + apply nextNumber_stored; [done|done|done|lia].
  - intros (r & s1 & Hr & Hret)%bind_returned.
    injection Hr as <- <-. injection Hret as <- <-. simpl. split.
    + exists []. by rewrite <- !app_assoc.
    + apply nextNumber_stored; [done|done|apply lookup_insert_eq|lia].
Qed.

(** Any other block ends the run: the next numbered item gets 1. *)
Lemma processBlock_other (st : LoopState) (b : Block) s st' s' :
  type b ≠ lit "numbered_list_item" ->
  processBlock fetch recurse lvl st b s = (Returned st', s') ->
  nextNumber lvl st' = 1.
Proof.
  intros Hb. unfold processBlock.
  intros (r & s1 & _ & Hret)%bind_returned. injection Hret as <- <-.
  unfold nextNumber. simpl. rewrite bool_decide_eq_false_2; [done|].
  intros [E _]. by apply (trackListContext_other b st Hb).
Qed.

(** A run of numbered items is numbered in sequence from the next number
    of the state it starts in. *)
Lemma foldM_numbered_run (run : list Block) :
  Forall (fun b => type b = lit "numbered_list_item") run ->
  forall st s st' s',
    1 <= nextNumber lvl st ->
    foldM (processBlock fetch recurse lvl) run st s = (Returned st', s') ->
    exists texts,
      content st' = content st ++ concat texts
      /\ EmittedFrom lvl (nextNumber lvl st) run texts.
Proof.
  induction 1 as [|b run Hb _ IH]; intros st s st' s' Hpos Hrun.
  - injection Hrun as <- <-. exists []. split; [by rewrite app_nil_r|constructor].
  - apply foldM_cons_returned in Hrun as (st1 & s1 & Hstep & Hrest).
    destruct (processBlock_numbered st b s st1 s1 Hb Hpos Hstep)
      as [[child Hc] Hn].
    destruct (IH st1 s1 st' s' ltac:(lia) Hrest) as (texts & Ht & He).
    rewrite Hn in He. eexists (_ :: texts). split.
    + rewrite Ht, Hc. cbn [concat]. rewrite <- (app_assoc (content st)).
      reflexivity.
    + by constructor.
Qed.

End Body.

(** No call writes a counter of a shallower depth. *)
Lemma extract_SameOutside (this : Server') (fuel : nat) :
  forall bs ln lvl,
    Ensures (extractContentFromBlocks fuel this bs ln lvl)
            (fun r => SameOutside lvl ln r.2).
Proof.
  induction fuel as [|fuel IH]; intros bs ln lvl; [done|].
  cbn [extractContentFromBlocks].
  eapply ens_bind.
  - apply (foldM_processBlock_Grows _ _ lvl). intros bs' ln' l _. apply IH.
  - intros st [_ Hln]. by apply ens_ret.
Qed.

End NumberingFacts.

Section NumberingClaim.

Context {World Page QueryParams : Type}.

Abbreviation Server' :=
  (Server (World:=World) (Page:=Page) (QueryParams:=QueryParams)).

Lemma nextNumber_initial (d : nat) (ln : gmap jsstring Z) :
  nextNumber d (initialState ln) = 1.
Proof.
  unfold nextNumber. case_bool_decide as H; [by destruct H|done].
Qed.

(** C5.  Numbering of numbered items in one decode pass: in a sequence of
    blocks where a run of numbered items that starts the sequence, or
    follows a block that is not a numbered item, is followed by a block
    that is not a numbered item and then by another run of numbered
    items, the items of each run are emitted with the numbers 1, 2, 3,
    ... in order; in particular the second run starts again at 1.  The
    text before the first run is the decoding of the blocks before
    it. *)
Theorem numbering_restarts (this : Server') (fuel : nat)
    (pre run1 : list Block) (b : Block) (run2 post : list Block)
    (ln : gmap jsstring Z) (d : nat) (s s' : State World QueryParams)
    (out : jsstring) (ln' : gmap jsstring Z) :
  Forall (fun x => type x = lit "numbered_list_item") run1 ->
  Forall (fun x => type x = lit "numbered_list_item") run2 ->
  type b ≠ lit "numbered_list_item" ->
  match last pre with
  | Some p => type p ≠ lit "numbered_list_item"
  | None => True
  end ->
  extractContentFromBlocks fuel this (pre ++ run1 ++ b :: run2 ++ post) ln d s
  = (Returned (out, ln'), s') ->
  exists out_pre texts1 out_b texts2 out_post,
    out = out_pre ++ concat texts1 ++ out_b ++ concat texts2 ++ out_post
    /\ EmittedFrom d 1 run1 texts1
    /\ EmittedFrom d 1 run2 texts2
    /\ exists ln_pre s_pre,
         extractContentFromBlocks fuel this pre ln d s
         = (Returned (out_pre, ln_pre), s_pre).
Proof.
  intros Hrun1 Hrun2 Hb Hpre Hdec.
  destruct fuel as [|fuel]; [done|].
  cbn [extractContentFromBlocks] in *.
  set (f := processBlock (fetchAllBlocks (Page:=Page) fuel this)
              (extractContentFromBlocks fuel this) d) in *.
  assert (Hrec : forall bs ln l, (d <= l)%nat ->
            Ensures (extractContentFromBlocks fuel this bs ln l)
                    (fun r => SameOutside l ln r.2))
    by (intros; apply extract_SameOutside).
  apply bind_returned in Hdec as (st5 & s5 & Hfold & Hret).
  injection Hret as <- <- <-.
  apply foldM_app_returned in Hfold as (st1 & s1 & Hf1 & Hfold).
  apply foldM_app_returned in Hfold as (st2 & s2 & Hf2 & Hfold).
  apply foldM_cons_returned in Hfold as (st3 & s3 & Hf3 & Hfold).
  apply foldM_app_returned in Hfold as (st4 & s4 & Hf4 & Hf5).
  assert (Hn1 : nextNumber d st1 = 1).
  { destruct (last pre) as [p|] eqn:Hlast.
    - apply last_Some in Hlast as [pre' ->].
      apply foldM_app_returned in Hf1 as (st0 & s0 & _ & Hp).
      apply foldM_cons_returned in Hp as (st0' & s0' & Hp & Hnil).
      injection Hnil as <- <-.
      by eapply (processBlock_other _ _ d).
    - apply last_None in Hlast as ->. injection Hf1 as <- <-.
      apply nextNumber_initial. }
  destruct (foldM_processBlock_Grows _ _ d Hrec _ _ _ _ _ Hf1) as [[o1 Ho1] _].
  assert (Hp1 : 1 <= nextNumber d st1) by lia.
  destruct (foldM_numbered_run _ _ d Hrec run1 Hrun1 _ _ _ _ Hp1 Hf2)
    as (texts1 & Ht1 & He1).
  destruct (processBlock_Grows _ _ d Hrec _ _ _ _ _ Hf3) as [[o3 Ho3] _].
  pose proof (processBlock_other _ _ d _ _ _ _ _ Hb Hf3) as Hn3.
  assert (Hp3 : 1 <= nextNumber d st3) by lia.
  destruct (foldM_numbered_run _ _ d Hrec run2 Hrun2 _ _ _ _ Hp3 Hf4)
    as (texts2 & Ht2 & He2).
  destruct (foldM_processBlock_Grows _ _ d Hrec _ _ _ _ _ Hf5) as [[o5 Ho5] _].
  rewrite Hn1 in He1. rewrite Hn3 in He2.
  exists o1, texts1, o3, texts2, o5. split_and!; [|done|done|].
  - rewrite Ho5, Ht2, Ho3, Ht1, Ho1. simpl. by rewrite <- !app_assoc.
  - exists (listNumbering st1), s1. rewrite (bind_step _ _ _ _ _ Hf1).
    unfold ret, loopResult. rewrite Ho1. done.
Qed.

End NumberingClaim.

Lemma numbering_restarts_witness :
  exists out_pre texts1 out_b texts2 out_post,
    lit "## Steps" ++ [LF; LF]
      ++ lit "1. A" ++ [LF] ++ lit "  1. sub a" ++ [LF] ++ lit "  2. sub b"
      ++ [LF; LF] ++ lit "2. B" ++ [LF]
      ++ lit "P" ++ [LF; LF]
      ++ lit "1. C" ++ [LF] ++ lit "2. D" ++ [LF]
      ++ lit "> end" ++ [LF; LF]
    = out_pre ++ concat texts1 ++ out_b ++ concat texts2 ++ out_post
    /\ EmittedFrom 0 1 (take 2 (drop 1 listBlocks)) texts1
    /\ EmittedFrom 0 1 (take 2 (drop 4 listBlocks)) texts2
    /\ exists ln_pre s_pre,
         extractContentFromBlocks 3 (scriptedServer [] listTree)
           (take 1 listBlocks) ∅ 0 freshState
         = (Returned (out_pre, ln_pre), s_pre).
Proof.
  refine (numbering_restarts (scriptedServer [] listTree) 3
            (take 1 listBlocks) (take 2 (drop 1 listBlocks))
            (textBlock "x" "paragraph" false "P")
            (take 2 (drop 4 listBlocks)) (drop 6 listBlocks)
            ∅ 0 freshState _ _ _ _ _ _ _ _).
  - repeat constructor.
  - repeat constructor.
  - discriminate.
  - discriminate.
  - vm_compute. reflexivity.
Defined.

(** * The tool handler [updatePrompt] *)

Section UpdatePromptClaims.

Context {World Page QueryParams : Type}.
Variable JSON_stringify : jsstring -> jsstring.

Abbreviation M' := (M World QueryParams).
Abbreviation Server' :=
  (Server (World:=World) (Page:=Page) (QueryParams:=QueryParams)).

Lemma iss_fetchLoop {A} P (request : option jsstring -> M' (ListResponse A))
    fuel acc more cursor :
  (forall c, Issues P (request c)) ->
  Issues P (fetchLoop fuel request acc more cursor).
Proof.
  intros Hr. revert acc more cursor.
  induction fuel as [|fuel IH]; intros acc more cursor; simpl;
    destruct more; simpl;
    try apply iss_ret; try apply iss_diverge.
  apply iss_bind; [apply Hr|]. intros r.
  destruct (_ && _); [apply iss_ret|apply IH].
Qed.

Lemma iss_fetchAllBlocks (P : Request QueryParams -> Prop) (this : Server')
    fuel blockId :
  (forall b n c, P (BlocksChildrenList b n c)) ->
  Issues P (fetchAllBlocks fuel this blockId).
Proof.
  intros HP. unfold fetchAllBlocks.
  destruct (notion this); [|apply iss_throw].
  apply iss_fetchLoop. intros cur.
  apply (iss_call P c (BlocksChildrenList blockId 100 cur)). apply HP.
Qed.

Lemma issued_Issues {A} (P : Request QueryParams -> Prop) (m : M' A) s :
  Issues P m -> Forall P (issued m s).
Proof.
  intros H. destruct (H s) as (new & E & F). unfold issued.
  rewrite E, drop_app_length. done.
Qed.

Ltac iss_walk :=
  repeat first
    [ apply iss_ret
    | apply iss_throw
    | apply iss_diverge
    | match goal with
      | |- Issues ?P (call ?c ?r) => apply (iss_call P c r); reflexivity
      end
    | apply iss_fetchAllBlocks; reflexivity
    | apply iss_bind; [|intros ?]
    | apply iss_tryCatch; [|intros ?]
    | apply iss_foldM; intros ? ?
    | match goal with
      | |- Issues _ (if ?x then _ else _) => destruct x
      | |- Issues _ (match ?x with _ => _ end) => destruct x
      end ].

(** C9.  Frame of [updatePrompt]: a call that supplies no [name], no
    [type] and no [tags] issues no [pages.update] request, so the
    properties of the page are not touched; a call that supplies no
    [detailed_prompt] issues no [blocks.delete] and no
    [blocks.children.append] request, so the content of the page is not
    touched.  This holds however the call ends. *)
Theorem updatePrompt_frame (this : Server') (fuel : nat) (args : UpdateArgs)
    (s : State World QueryParams) :
  (arg_name args = None -> arg_type args = None -> arg_tags args = None ->
   Forall (fun r => isPropertiesUpdate r = false)
          (issued (updatePrompt JSON_stringify fuel this (Some args)) s))
  /\ (arg_detailed_prompt args = None ->
      Forall (fun r => isContentChange r = false)
             (issued (updatePrompt JSON_stringify fuel this (Some args)) s)).
Proof.
  split.
  - intros Hn Ht Hg. apply issued_Issues.
    unfold updatePrompt, updatePromptBody, updatePromptCatch.
    rewrite Hn, Ht, Hg. cbn [keysLength prop_Name prop_Type prop_Tags Z.add Z.ltb Z.compare].
    iss_walk.
  - intros Hd. apply issued_Issues.
    unfold updatePrompt, updatePromptBody, updatePromptCatch.
    rewrite Hd.
    iss_walk.
Qed.

End UpdatePromptClaims.

Lemma updatePrompt_frame_witness :
  issued (updatePrompt quoteOnly 3 (scriptedServer [] wrapperTree)
            (Some contentOnlyArgs)) freshState
  = [PagesRetrieve (lit "w");
     BlocksChildrenList (lit "w") 100 None;
     BlocksDelete (lit "p");
     BlocksChildrenAppend (lit "w")
       [{| bor_object := lit "block"; bor_type := lit "paragraph";
           bor_rich_text := [(lit "text", lit "New text.")] |}]]
  /\ Forall (fun r => isPropertiesUpdate r = false)
       (issued (updatePrompt quoteOnly 3 (scriptedServer [] wrapperTree)
                  (Some contentOnlyArgs)) freshState)
  /\ Forall (fun r => isContentChange r = false)
       (issued (updatePrompt quoteOnly 3 (scriptedServer [] wrapperTree)
                  (Some propertiesOnlyArgs)) freshState).
Proof.
  split; [vm_compute; reflexivity|]. split.
  - exact (proj1 (updatePrompt_frame quoteOnly (scriptedServer [] wrapperTree)
                    3 contentOnlyArgs freshState) eq_refl eq_refl eq_refl).
  - exact (proj2 (updatePrompt_frame quoteOnly (scriptedServer [] wrapperTree)
                    3 propertiesOnlyArgs freshState) eq_refl).
Defined.

(** * More about the splitter *)

Lemma searchDown_match (s pat : jsstring) (k : nat) :
  0 ≤ searchDown s pat k ->
  take (length pat) (drop (Z.to_nat (searchDown s pat k)) s) = pat.
Proof.
  induction k as [|k IH]; simpl; destruct (matchesAt s pat _) eqn:E;
    intros H; try lia; try (by apply IH);
    rewrite Nat2Z.id; apply bool_decide_eq_true in E; exact E.
Qed.

Lemma lastIndexOf_match (s pat : jsstring) (position : Z) :
  0 ≤ lastIndexOf s pat position ->
  take (length pat) (drop (Z.to_nat (lastIndexOf s pat position)) s) = pat.
Proof.
  unfold lastIndexOf. cbv zeta. destruct (_ <? 0); [lia|].
  apply searchDown_match.
Qed.

(** The piece cut before an occurrence of [pat] found at [p], the
    occurrence included, ends with [pat]. *)
Lemma take_match_suffix (s pat : jsstring) (p : nat) :
  take (length pat) (drop p s) = pat ->
  pat `suffix_of` take (p + length pat) s.
Proof.
  intros H. exists (take p s).
  rewrite <- H at 2. rewrite take_drop_commute.
  rewrite <- (take_drop p (take (p + length pat) s)) at 1.
  rewrite take_take. f_equal. f_equal. lia.
Qed.

Lemma suffix_last_unit (c x : N) (chunk : jsstring) :
  [c; x] `suffix_of` chunk -> [x] `suffix_of` chunk.
Proof. intros [k ->]. exists (k ++ [c]). by rewrite <- app_assoc. Qed.

(** Where the splitter cuts: past the midpoint of the window, and after
    a space or a blank line unless it cuts at [maxLength]. *)
Lemma findBreakPoint_shape (r : jsstring) (m : Z) :
  1 ≤ m -> m < Z.of_nat (length r) ->
  m < 2 * findBreakPoint r m
  /\ endsAtBreak m (take (Z.to_nat (findBreakPoint r m)) r).
Proof.
  intros Hm Hlen. unfold findBreakPoint. cbv zeta.
  assert (Hcut : forall pat p,
             p = lastIndexOf r pat m -> m < 2 * p ->
             pat `suffix_of` take (Z.to_nat (p + Z.of_nat (length pat))) r).
  { intros pat p -> Hp.
    replace (Z.to_nat (lastIndexOf r pat m + Z.of_nat (length pat)))
      with (Z.to_nat (lastIndexOf r pat m) + length pat)%nat by lia.
    apply take_match_suffix, lastIndexOf_match. lia. }
  destruct (gtHalf (lastIndexOf r [LF; LF] m) m) eqn:E1.
  { apply gtHalf_spec in E1. split; [lia|]. right. right.
    apply (Hcut [LF; LF] _ eq_refl E1). }
  destruct (gtHalf (Z.max _ _) m) eqn:E2.
  { apply gtHalf_spec in E2. split; [lia|]. right. left.
    set (a := lastIndexOf r (lit ". ") m) in *.
    set (b := lastIndexOf r (lit "! ") m) in *.
    set (c := lastIndexOf r (lit "? ") m) in *.
    destruct (Z.max_spec (Z.max a b) c) as [[_ Hmax]|[_ Hmax]];
      rewrite Hmax in *.
    - apply (suffix_last_unit 63%N). apply (Hcut (lit "? ") c eq_refl). lia.
    - destruct (Z.max_spec a b) as [[_ Hab]|[_ Hab]]; rewrite Hab in *.
      + apply (suffix_last_unit 33%N). apply (Hcut (lit "! ") b eq_refl). lia.
      + apply (suffix_last_unit 46%N). apply (Hcut (lit ". ") a eq_refl). lia. }
  destruct (gtHalf (lastIndexOf r [SP] m) m) eqn:E3.
  { apply gtHalf_spec in E3. split; [lia|]. right. left.
    apply (Hcut [SP] _ eq_refl E3). }
  split; [lia|]. left. rewrite length_take. lia.
Qed.

(** The result of the loop: pieces cut at break points, then what was
    left, if anything, within [maxLength]. *)
Lemma splitLoop_cuts (m : Z) (fuel : nat) :
  1 ≤ m ->
  forall (r : jsstring) (chunks res : list jsstring),
    splitLoop fuel r m chunks = Some res ->
    exists cuts rest,
      res = chunks ++ cuts ++ rest
      /\ Forall (fun c => m < 2 * Z.of_nat (length c) /\ endsAtBreak m c) cuts
      /\ (rest = [] \/ exists c, rest = [c] /\ Z.of_nat (length c) ≤ m).
Proof.
  intros Hm. induction fuel as [|fuel IH]; intros r chunks res; [done|].
  simpl.
  destruct (Z.ltb_spec 0 (Z.of_nat (length r))) as [Hpos|Hz].
  - destruct (Z.leb_spec (Z.of_nat (length r)) m) as [Hfit|Hbig].
    + intros [= <-]. exists [], [r]. split_and!; [done|done|].
      right. by exists r.
    + destruct (findBreakPoint_bounds r m Hm Hbig) as [Hb Hb2].
      destruct (findBreakPoint_shape r m Hm Hbig) as [Hhalf Hend].
      set (bp := findBreakPoint r m) in *.
      rewrite substring_prefix, substring_suffix.
      assert (Hc : clampIndex (length r) bp = Z.to_nat bp)
        by (unfold clampIndex; lia).
      rewrite Hc. intros Hrun.
      destruct (IH _ _ _ Hrun) as (cuts & rest & -> & Hcuts & Hrest).
      exists (take (Z.to_nat bp) r :: cuts), rest.
      split_and!; [by rewrite <- app_assoc| |done].
      constructor; [|done]. split; [|done]. rewrite length_take. lia.
  - intros [= <-]. exists [], []. split_and!; [by rewrite app_nil_r|done|by left].
Qed.

Lemma splitTextIntoChunks_cuts (text : jsstring) (m : Z)
    (init : list jsstring) (last : jsstring) :
  1 ≤ m ->
  splitTextIntoChunks text m = Some (init ++ [last]) ->
  Forall (fun c => m < 2 * Z.of_nat (length c) /\ endsAtBreak m c) init.
Proof.
  intros Hm. unfold splitTextIntoChunks.
  destruct (_ <=? m).
  - intros [= H]. destruct init as [|? [|??]]; [done|done|done].
  - intros (cuts & rest & E & Hcuts & Hrest)%splitLoop_cuts; [|done].
    simpl in E. destruct Hrest as [->|(c & -> & _)].
    + rewrite app_nil_r in E. subst cuts. by apply Forall_app in Hcuts as [? _].
    + apply app_inj_tail in E as [-> _]. done.
Qed.

(** X1.  No chunk is more than two code units over [maxLength]: a cut made
    after a delimiter found at the end of the window takes the delimiter
    along. *)
Theorem chunks_within_two_of_limit (text : jsstring) (m : Z)
    (chunks : list jsstring) :
  1 ≤ m -> splitTextIntoChunks text m = Some chunks ->
  Forall (fun c => Z.of_nat (length c) ≤ m + 2) chunks.
Proof.
  intros Hm Hrun.
  destruct (splitTextIntoChunks_spec text m Hm) as (chunks' & E & _ & _ & _ & H).
  congruence.
Qed.

(** X2.  No chunk but the last is shorter than half of [maxLength], or as
    short. *)
Theorem chunk_min_length (text : jsstring) (m : Z)
    (init : list jsstring) (last : jsstring) :
  1 ≤ m ->
  splitTextIntoChunks text m = Some (init ++ [last]) ->
  Forall (fun c => m < 2 * Z.of_nat (length c)) init.
Proof.
  intros Hm Hrun. eapply Forall_impl; [by eapply splitTextIntoChunks_cuts|].
  by intros c [? _].
Qed.


(** X4.  A text without spaces and line feeds is cut into pieces of exactly
    [maxLength], the last one apart. *)
Theorem chunk_exact_without_breaks (text : jsstring) (m : Z)
    (init : list jsstring) (last : jsstring) :
  1 ≤ m -> SP ∉ text -> LF ∉ text ->
  splitTextIntoChunks text m = Some (init ++ [last]) ->
  Forall (fun c => Z.of_nat (length c) = m) init.
Proof.
  intros Hm Hsp Hlf Hrun.
  destruct (splitTextIntoChunks_spec text m Hm) as (chunks & E & Hcat & _).
  rewrite Hrun in E. injection E as <-.
  pose proof (splitTextIntoChunks_cuts text m init last Hm Hrun) as Hends.
  apply Forall_forall. intros c Hc.
  assert (Hin : forall x, x ∈ c -> x ∈ text).
  { intros x Hx. rewrite <- Hcat. apply list_elem_of_In, in_concat.
    exists c. split; apply list_elem_of_In; [set_solver|done]. }
  destruct (proj1 (Forall_forall _ _) Hends c Hc) as [_ [H|[[k ->]|[k ->]]]];
    [done| |]; exfalso.
  - apply Hsp, Hin. set_solver.
  - apply Hlf, Hin. set_solver.
Qed.

(** X5.  With [maxLength = 0] the loop consumes nothing: on a non-empty text
    it never ends. *)
Theorem splitLoop_zero_never_ends (fuel : nat) (text : jsstring)
    (chunks : list jsstring) :
  text ≠ [] -> splitLoop fuel text 0 chunks = None.
Proof.
  intros Hne. revert chunks. induction fuel as [|fuel IH]; intros chunks; [done|].
  simpl.
  assert (Hlen : 0 < Z.of_nat (length text)) by (destruct text; [done|simpl; lia]).
  destruct (Z.ltb_spec 0 (Z.of_nat (length text))); [|lia].
  destruct (Z.leb_spec (Z.of_nat (length text)) 0); [lia|].
  assert (Hbp : findBreakPoint text 0 = 0).
  { unfold findBreakPoint. cbv zeta.
    pose proof (lastIndexOf_bounds text [LF; LF] 0).
    pose proof (lastIndexOf_bounds text (lit ". ") 0).
    pose proof (lastIndexOf_bounds text (lit "! ") 0).
    pose proof (lastIndexOf_bounds text (lit "? ") 0).
    pose proof (lastIndexOf_bounds text [SP] 0).
    unfold gtHalf.
    repeat match goal with
           | |- context [?a <? ?b] => destruct (Z.ltb_spec a b)
           end; lia. }
  rewrite Hbp, substring_suffix.
  replace (clampIndex (length text) 0) with 0%nat by (unfold clampIndex; lia).
  apply IH.
Qed.

(** X6.  [createParagraphBlocksFromText] always returns; its blocks are
    paragraphs with one text item each, whose contents, in order, make
    up the text, none longer than 2002 code units. *)
Theorem createParagraphBlocksFromText_spec (text : jsstring) :
  exists blocks,
    createParagraphBlocksFromText text = Some blocks
    /\ blocks ≠ []
    /\ Forall (fun b => bor_object b = lit "block"
                        /\ bor_type b = lit "paragraph"
                        /\ exists chunk, bor_rich_text b = [(lit "text", chunk)]
                                         /\ (length chunk <= 2002)%nat)
              blocks
    /\ concat (map (fun b => concat (map snd (bor_rich_text b))) blocks) = text.
Proof.
  unfold createParagraphBlocksFromText.
  destruct (splitTextIntoChunks_spec text 2000 ltac:(lia))
    as (chunks & -> & Hcat & Hne & _ & Hlen).
  eexists. split; [reflexivity|]. split_and!.
  - by destruct chunks.
  - apply Forall_map. eapply Forall_impl; [exact Hlen|].
    intros c Hc. simpl in *. split_and!; [done|done|]. exists c. split; [done|lia].
  - rewrite map_map. simpl. rewrite <- Hcat. f_equal.
    clear. induction chunks as [|c cs IH]; simpl; [done|].
    by rewrite app_nil_r, IH.
Qed.

(** * More about the fetchers *)

Section FetcherMore.

Context {World Page QueryParams : Type}.

Abbreviation M' := (M World QueryParams).
Abbreviation Server' :=
  (Server (World:=World) (Page:=Page) (QueryParams:=QueryParams)).

Lemma fetchLoop_throws {A} (request : option jsstring -> M' (ListResponse A))
    s pages c s1 e s2 fuel :
  Continues request None s pages c s1 ->
  request c s1 = (Thrown e, s2) ->
  (length pages < fuel)%nat ->
  fetchLoop fuel request [] true None s = (Thrown e, s2).
Proof.
  intros Hrun Hreq Hfuel.
  replace fuel with (length pages + S (fuel - S (length pages)))%nat by lia.
  rewrite (fetchLoop_continues _ _ _ _ _ _ Hrun).
  cbn [fetchLoop negb]. unfold bind. by rewrite Hreq.
Qed.

(** X7.  A page request that the remote rejects ends the fetcher with the
    same error: the records of the pages fetched before are not
    returned. *)
Theorem fetchers_propagate_errors (this : Server')
    (client : Client World Page QueryParams)
    (Hclient : notion this = Some client) :
  (forall queryParams pages c s s1 e s2 fuel,
      Continues (queryRequest client queryParams) None s pages c s1 ->
      queryRequest client queryParams c s1 = (Thrown e, s2) ->
      (length pages < fuel)%nat ->
      fetchAllResults fuel this queryParams s = (Thrown e, s2))
  /\ (forall blockId pages c s s1 e s2 fuel,
      Continues (childrenRequest client blockId) None s pages c s1 ->
      childrenRequest client blockId c s1 = (Thrown e, s2) ->
      (length pages < fuel)%nat ->
      fetchAllBlocks fuel this blockId s = (Thrown e, s2)).
Proof.
  split.
  - intros q pages c s s1 e s2 fuel Hrun Hreq Hfuel.
    unfold fetchAllResults. rewrite Hclient.
    eapply (fetchLoop_throws (queryRequest client q)); eauto.
  - intros b pages c s s1 e s2 fuel Hrun Hreq Hfuel.
    unfold fetchAllBlocks. rewrite Hclient.
    eapply (fetchLoop_throws (childrenRequest client b)); eauto.
Qed.

(** Without a client the fetchers throw at once, and issue nothing. *)
Lemma fetchers_need_client (this : Server') (fuel : nat)
    (queryParams : QueryParams) (blockId : jsstring)
    (s : State World QueryParams) :
  notion this = None ->
  fetchAllResults fuel this queryParams s
  = (Thrown (JsError (lit "Notion client not initialized")), s)
  /\ fetchAllBlocks fuel this blockId s
     = (Thrown (JsError (lit "Notion client not initialized")), s).
Proof. intros H. unfold fetchAllResults, fetchAllBlocks. by rewrite H. Qed.

(** X8.  Every request of the fetchers is a listing of the same query, or of
    the same block, with a page size of 100. *)
Theorem fetchers_requests (this : Server') (fuel : nat)
    (queryParams : QueryParams) (blockId : jsstring)
    (s : State World QueryParams) :
  Forall (fun r => exists c, r = DatabasesQuery queryParams 100 c)
         (issued (fetchAllResults fuel this queryParams) s)
  /\ Forall (fun r => exists c, r = BlocksChildrenList blockId 100 c)
            (issued (fetchAllBlocks fuel this blockId) s).
Proof.
  split; apply issued_Issues.
  - unfold fetchAllResults. destruct (notion this) as [client|];
      [|apply iss_throw].
    apply iss_fetchLoop. intros cur.
    apply (iss_call _ client (DatabasesQuery queryParams 100 cur)). eauto.
  - unfold fetchAllBlocks. destruct (notion this) as [client|];
      [|apply iss_throw].
    apply iss_fetchLoop. intros cur.
    apply (iss_call _ client (BlocksChildrenList blockId 100 cur)). eauto.
Qed.

Lemma fetchLoop_endless {A} (request : option jsstring -> M' (ListResponse A)) :
  (forall c s, exists r s',
      request c s = (Returned r, s')
      /\ length (requests s') = S (length (requests s))
      /\ has_more r = true /\ noCursor (next_cursor r) = false) ->
  forall fuel acc c s,
    (fetchLoop fuel request acc true c s).1 = Diverged
    /\ length (requests (fetchLoop fuel request acc true c s).2)
       = (length (requests s) + fuel)%nat.
Proof.
  intros Hreq. induction fuel as [|fuel IH]; intros acc c s.
  - simpl. split; [done|lia].
  - cbn [fetchLoop negb].
    destruct (Hreq c s) as (r & s' & E & Hlen & Hmore & Hcur).
    rewrite (bind_step _ _ _ _ _ E). cbv zeta. rewrite Hmore.
    replace (noCursor (orUndefined (next_cursor r))) with false
      by (destruct (next_cursor r) as [[|??]|]; done).
    cbn [andb]. destruct (IH (acc ++ results r) (orUndefined (next_cursor r)) s')
      as [Ho Hl].
    split; [done|]. rewrite Hl. lia.
Qed.

(** X9.  There is no bound on the pages: against a remote whose every page
    announces more and gives a cursor, [fetchAllBlocks] never returns;
    it goes on issuing requests. *)
Theorem fetchAllBlocks_endless (this : Server')
    (client : Client World Page QueryParams) (blockId : jsstring) :
  notion this = Some client ->
  (forall c w, exists r w',
      client (BlocksChildrenList blockId 100 c) w = (Returned r, w')
      /\ has_more r = true /\ noCursor (next_cursor r) = false) ->
  forall fuel s,
    (fetchAllBlocks fuel this blockId s).1 = Diverged
    /\ length (issued (fetchAllBlocks fuel this blockId) s) = fuel.
Proof.
  intros Hclient Hremote fuel s. unfold issued, fetchAllBlocks.
  rewrite Hclient.
  destruct (fetchLoop_endless (childrenRequest client blockId)) with
    (fuel := fuel) (acc := @nil Block) (c := @None jsstring) (s := s)
    as [Ho Hl].
  { intros c s0. destruct (Hremote c (world s0)) as (r & w' & E & Hm & Hc).
    exists r, {| world := w'; requests := requests s0 ++ [BlocksChildrenList blockId 100 c] |}.
    split_and!; [|simpl; rewrite length_app; simpl; lia|done|done].
    unfold childrenRequest, call. by rewrite E. }
  split; [exact Ho|]. unfold childrenRequest in Hl.
  rewrite length_drop, Hl. lia.
Qed.

End FetcherMore.

(** * Two runs side by side *)

Section SimFacts.

Context {World Page QueryParams : Type}.

Abbreviation M' := (M World QueryParams).
Abbreviation Numbering := (gmap jsstring Z).

Lemma sim_ret {A} (R : A -> A -> Prop) (a1 a2 : A) :
  R a1 a2 -> Sim R (ret a1 : M' A) (ret a2).
Proof. intros H s. done. Qed.

Lemma sim_refl {A} (m : M' A) : Sim eq m m.
Proof. intros s. split; [done|]. by destruct (m s).1. Qed.

Lemma sim_bind {A B} (R : A -> A -> Prop) (Q : B -> B -> Prop)
    (m1 m2 : M' A) (k1 k2 : A -> M' B) :
  Sim R m1 m2 -> (forall a1 a2, R a1 a2 -> Sim Q (k1 a1) (k2 a2)) ->
  Sim Q (bind m1 k1) (bind m2 k2).
Proof.
  intros Hm Hk s. unfold bind. destruct (Hm s) as [Hs Ho].
  destruct (m1 s) as [o1 t1], (m2 s) as [o2 t2]. simpl in *. subst t2.
  destruct o1, o2; try done. by apply Hk.
Qed.

Lemma sim_mono {A} (R Q : A -> A -> Prop) (m1 m2 : M' A) :
  (forall a1 a2, R a1 a2 -> Q a1 a2) -> Sim R m1 m2 -> Sim Q m1 m2.
Proof.
  intros HRQ H s. destruct (H s) as [Hs Ho]. split; [done|].
  destruct (m1 s).1, (m2 s).1; try done. by apply HRQ.
Qed.

Lemma sim_eq {A} (m1 m2 : M' A) : Sim eq m1 m2 -> forall s, m1 s = m2 s.
Proof.
  intros H s. destruct (H s) as [Hs Ho].
  destruct (m1 s) as [o1 t1], (m2 s) as [o2 t2]. simpl in *. subst t2.
  destruct o1, o2; try done; by subst.
Qed.

Lemma sim_foldM {A B} (Inv : A -> A -> Prop) (f1 f2 : A -> B -> M' A)
    (l : list B) (a1 a2 : A) :
  (forall a1 a2 b, Inv a1 a2 -> Sim Inv (f1 a1 b) (f2 a2 b)) ->
  Inv a1 a2 -> Sim Inv (foldM f1 l a1) (foldM f2 l a2).
Proof.
  intros Hf. revert a1 a2. induction l as [|b l IH]; intros a1 a2 Ha; simpl.
  - by apply sim_ret.
  - eapply sim_bind; [by apply Hf|]. intros. by apply IH.
Qed.

(** ** The decoder run with two fetches, two recursive calls and two
    numbering objects *)

Section RenderBlock.

Variables fetch1 fetch2 : jsstring -> M' (list Block).
Variables recurse1 recurse2 :
  list Block -> Numbering -> nat -> M' (jsstring * Numbering).
Variable Rn : Numbering -> Numbering -> Prop.

Hypothesis Hfetch : forall i, Sim eq (fetch1 i) (fetch2 i).
Hypothesis Hrecurse : forall bs l lnA lnB,
  Rn lnA lnB -> Sim (sameText Rn) (recurse1 bs lnA l) (recurse2 bs lnB l).
Hypothesis Hinsert : forall k v lnA lnB,
  Rn lnA lnB -> Rn (<[k:=v]> lnA) (<[k:=v]> lnB).

Lemma sim_children i l lnA lnB :
  Rn lnA lnB ->
  Sim (sameText Rn) (childBlocks <- fetch1 i ;; recurse1 childBlocks lnA l)
               (childBlocks <- fetch2 i ;; recurse2 childBlocks lnB l).
Proof.
  intros H. eapply sim_bind; [apply Hfetch|]. intros bs ? <-. by apply Hrecurse.
Qed.

Lemma sim_pair (c : jsstring) lnA lnB :
  Rn lnA lnB -> Sim (sameText Rn) (ret (c, lnA) : M' _) (ret (c, lnB)).
Proof. intros H. by apply sim_ret. Qed.

Lemma sim_listItem (b : Block) (d : nat) (c : jsstring) lnA lnB :
  Rn lnA lnB ->
  Sim (sameText Rn)
    (if has_children b then
       child <- (childBlocks <- fetch1 (id b) ;; recurse1 childBlocks lnA (S d)) ;;
       ret ((if truthy (trim child.1) then c ++ [LF] ++ child.1 else c) ++ [LF],
            child.2)
     else ret (c ++ [LF], lnA))
    (if has_children b then
       child <- (childBlocks <- fetch2 (id b) ;; recurse2 childBlocks lnB (S d)) ;;
       ret ((if truthy (trim child.1) then c ++ [LF] ++ child.1 else c) ++ [LF],
            child.2)
     else ret (c ++ [LF], lnB)).
Proof.
  intros H. destruct (has_children b); [|by apply sim_pair].
  eapply sim_bind; [by apply sim_children|].
  intros [x1 x2] [y1 y2] [E Hn]. simpl in *. subst. by apply sim_pair.
Qed.

Lemma sim_withChildren (b : Block) (d : nat) (c : jsstring) lnA lnB :
  Rn lnA lnB ->
  Sim (sameText Rn)
    (if has_children b then
       child <- (childBlocks <- fetch1 (id b) ;; recurse1 childBlocks lnA (S d)) ;;
       ret (c ++ child.1, child.2)
     else ret (c, lnA))
    (if has_children b then
       child <- (childBlocks <- fetch2 (id b) ;; recurse2 childBlocks lnB (S d)) ;;
       ret (c ++ child.1, child.2)
     else ret (c, lnB)).
Proof.
  intros H. destruct (has_children b); [|by apply sim_pair].
  eapply sim_bind; [by apply sim_children|].
  intros [x1 x2] [y1 y2] [E Hn]. simpl in *. subst. by apply sim_pair.
Qed.

Lemma sim_inline (b : Block) (d : nat) (c : jsstring) lnA lnB :
  Rn lnA lnB ->
  Sim (sameText Rn)
    (child <- (childBlocks <- fetch1 (id b) ;; recurse1 childBlocks lnA d) ;;
     ret (c ++ child.1, child.2))
    (child <- (childBlocks <- fetch2 (id b) ;; recurse2 childBlocks lnB d) ;;
     ret (c ++ child.1, child.2)).
Proof.
  intros H. eapply sim_bind; [by apply sim_children|].
  intros [x1 x2] [y1 y2] [E Hn]. simpl in *. subst. by apply sim_pair.
Qed.

(** The two runs of [renderBlock] add the same text, provided a numbered
    item reads the same number in both. *)
Lemma sim_renderBlock (d : nat) (b : Block) (c : jsstring) lnA lnB :
  Rn lnA lnB ->
  (type b = lit "numbered_list_item" ->
   numberOr1 lnA (listIdOf d b) = numberOr1 lnB (listIdOf d b)) ->
  Sim (sameText Rn) (renderBlock fetch1 recurse1 d b c lnA)
               (renderBlock fetch2 recurse2 d b c lnB).
Proof.
  intros Hn Hnum. unfold renderBlock. cbv beta zeta.
  repeat match goal with
         | |- Sim _ (if bool_decide (type b = ?k) then _ else _) _ =>
             destruct (bool_decide (type b = k)) eqn:?
         | |- Sim _ (if ?x || ?y then _ else _) _ =>
             destruct (x || y) eqn:?
         end;
    try (apply sim_pair; done).
  - by apply sim_listItem.
  - match goal with H : bool_decide _ = true |- _ =>
      apply bool_decide_eq_true in H; rewrite (Hnum H) end.
    apply sim_listItem. by apply Hinsert.
  - by apply sim_withChildren.
  - by apply sim_withChildren.
  - by apply sim_withChildren.
  - destruct (has_children b); [|by apply sim_pair].
    eapply sim_bind; [apply Hfetch|]. intros rows ? <-. by apply sim_pair.
  - destruct (has_children b); [|by apply sim_pair]. by apply sim_inline.
  - destruct (_ && _).
    + eapply sim_bind; [apply Hfetch|]. intros columns ? <-.
      apply (sim_foldM (sameText Rn)); [|done].
      intros [x1 x2] [y1 y2] column [E Hxy]. simpl in *. subst y1.
      destruct (_ && _); [|by apply sim_ret].
      eapply sim_bind; [apply Hfetch|]. intros columnBlocks ? <-.
      eapply sim_bind; [by apply Hrecurse|].
      intros [u1 u2] [v1 v2] [E Huv]. simpl in *. subst. by apply sim_pair.
    + destruct (_ && _); [by apply sim_inline|by apply sim_pair].
Qed.

End RenderBlock.

End SimFacts.

Section DecoderRuns.

Context {World Page QueryParams : Type}.

Abbreviation M' := (M World QueryParams).
Abbreviation Numbering := (gmap jsstring Z).
Abbreviation Server' :=
  (Server (World:=World) (Page:=Page) (QueryParams:=QueryParams)).

(** ** The decoder with the client as an argument *)

Lemma fetchAllBlocksWithClient_eq (this : Server')
    (client : Client World Page QueryParams) fuel blockId :
  notion this = Some client ->
  fetchAllBlocks fuel this blockId = fetchAllBlocksWithClient fuel blockId client.
Proof. intros H. unfold fetchAllBlocks. by rewrite H. Qed.

Lemma sim_extract_withClient (this : Server')
    (client : Client World Page QueryParams) (fuel : nat) :
  notion this = Some client ->
  forall bs ln d,
    Sim (sameText eq)
      (extractContentFromBlocks fuel this bs ln d)
      (extractContentFromBlocksWithClient fuel bs client ln d).
Proof.
  intros Hc. induction fuel as [|fuel IH]; intros bs ln d; [done|].
  cbn [extractContentFromBlocks extractContentFromBlocksWithClient].
  eapply sim_bind with (R := eq); [|intros st ? <-; by apply sim_ret].
  apply (sim_foldM eq); [|done]. intros st ? b <-. unfold processBlock.
  eapply sim_bind.
  - apply (sim_renderBlock _ _ _ _ eq); [| | |done|done].
    + intros i. rewrite (fetchAllBlocksWithClient_eq this client) by done.
      apply sim_refl.
    + intros bs' l lnA ? <-. apply IH.
    + by intros k v lnA ? <-.
  - intros [x1 x2] [y1 y2] [E1 E2]. simpl in *. subst. by apply sim_ret.
Qed.

(** X10.  The two decoders of the class agree: with [this.notion] as the
    client, [extractContentFromBlocksWithClient] issues the same
    requests and ends the same way, with the same text, as
    [extractContentFromBlocks]. *)
Theorem decoders_agree (this : Server')
    (client : Client World Page QueryParams) (fuel : nat)
    (blocks : list Block) (ln : Numbering) (d : nat)
    (s : State World QueryParams) :
  notion this = Some client ->
  extractContentFromBlocksWithClient fuel blocks client ln d s
  = extractContentFromBlocks fuel this blocks ln d s.
Proof.
  intros Hc. symmetry. apply sim_eq.
  eapply sim_mono; [|by apply sim_extract_withClient].
  intros [x1 x2] [y1 y2] [E1 E2]. simpl in *. by subst.
Qed.

(** ** The numbering object that is passed in *)

Section Loop.

Variable fetch : jsstring -> M' (list Block).
Variable recurse : list Block -> Numbering -> nat -> M' (jsstring * Numbering).
Variable lvl : nat.
Hypothesis Hrec : forall bs ln l, (lvl <= l)%nat ->
  Ensures (recurse bs ln l) (fun r => SameOutside l ln r.2).
Hypothesis Hsim : forall bs l lnA lnB,
  Sim (sameText (fun _ _ => True)) (recurse bs lnA l) (recurse bs lnB l).

Lemma trackListContext_cur (b : Block) (st1 st2 : LoopState) :
  currentListType st1 = currentListType st2 ->
  currentListId st1 = currentListId st2 ->
  currentListType (trackListContext lvl b st1)
  = currentListType (trackListContext lvl b st2)
  /\ currentListId (trackListContext lvl b st1)
     = currentListId (trackListContext lvl b st2).
Proof.
  intros H1 H2. unfold trackListContext. rewrite H1, H2.
  by repeat case_match.
Qed.

(** A numbered item stores the number after its own, and its children
    leave it in place. *)
Lemma processBlock_numbered_stored (st : LoopState) (b : Block) s st' s' :
  type b = lit "numbered_list_item" ->
  processBlock fetch recurse lvl st b s = (Returned st', s') ->
  currentListType st' = Some (lit "numbered_list_item")
  /\ currentListId st' = numberedKey lvl
  /\ listNumbering st' !! numberedKey lvl = Some (nextNumber lvl st + 1).
Proof.
  intros Hb. unfold processBlock.
  rewrite renderBlock_numbered by done. cbv zeta.
  rewrite (listIdOf_numbered _ _ Hb).
  destruct (trackListContext_numbered lvl b st Hb) as (Hty & Hid & Hnum).
  rewrite Hnum.
  destruct (has_children b).
  - intros (r & s1 & Hr & Hret)%bind_returned.
    apply bind_returned in Hr as (child & s2 & Hchild & Hret').
    injection Hret' as <- <-. injection Hret as <- <-. simpl.
    split_and!; [done|done|].
    apply bind_returned in Hchild as (bs & s3 & _ & Hrec').
    rewrite (Hrec _ _ (S lvl) ltac:(lia) _ _ _ Hrec' (numberedKey lvl)).
    + apply lookup_insert_eq.
    + apply Outside_numberedKey. lia.
  - intros (r & s1 & Hr & Hret)%bind_returned.
    injection Hr as <- <-. injection Hret as <- <-. simpl.
    split_and!; [done|done|apply lookup_insert_eq].
Qed.

Lemma nextNumber_of_stored (st : LoopState) (v : Z) :
  currentListType st = Some (lit "numbered_list_item") ->
  currentListId st = numberedKey lvl ->
  listNumbering st !! numberedKey lvl = Some v ->
  nextNumber lvl st = if v =? 0 then 1 else v.
Proof.
  intros H1 H2 H3. unfold nextNumber.
  rewrite bool_decide_eq_true_2 by done. unfold numberOr1. by rewrite H3.
Qed.

Lemma sim_processBlock (st1 st2 : LoopState) (b : Block) :
  sameLoop lvl st1 st2 ->
  Sim (sameLoop lvl) (processBlock fetch recurse lvl st1 b)
                     (processBlock fetch recurse lvl st2 b).
Proof.
  intros (Hc & Ht & Hi & Hn).
  assert (Hweak : Sim (fun x y => content x = content y
                                  /\ currentListType x = currentListType y
                                  /\ currentListId x = currentListId y)
                    (processBlock fetch recurse lvl st1 b)
                    (processBlock fetch recurse lvl st2 b)).
  { unfold processBlock.
    destruct (trackListContext_cur b st1 st2 Ht Hi) as [Ht' Hi'].
    eapply sim_bind.
    - rewrite !trackListContext_content, Hc.
      apply (sim_renderBlock fetch fetch recurse recurse (fun _ _ => True));
        [intros; apply sim_refl|intros; apply Hsim|done|done|].
      intros Hb. rewrite (listIdOf_numbered _ _ Hb).
      destruct (trackListContext_numbered lvl b st1 Hb) as (_ & _ & ->).
      destruct (trackListContext_numbered lvl b st2 Hb) as (_ & _ & ->).
      done.
    - intros [x1 x2] [y1 y2] [E _]. simpl in *. subst. by apply sim_ret. }
  intros s. destruct (Hweak s) as [Hs Ho]. split; [done|].
  destruct (processBlock fetch recurse lvl st1 b s) as [o1 t1] eqn:E1.
  destruct (processBlock fetch recurse lvl st2 b s) as [o2 t2] eqn:E2.
  simpl in *. destruct o1 as [x| |], o2 as [y| |]; try done.
  destruct Ho as (Hc' & Ht' & Hi'). split_and!; [done|done|done|].
  destruct (decide (type b = lit "numbered_list_item")) as [Hb|Hb].
  - destruct (processBlock_numbered_stored _ _ _ _ _ Hb E1) as (A1 & B1 & C1).
    destruct (processBlock_numbered_stored _ _ _ _ _ Hb E2) as (A2 & B2 & C2).
    rewrite (nextNumber_of_stored x _ A1 B1 C1).
    rewrite (nextNumber_of_stored y _ A2 B2 C2). by rewrite Hn.
  - rewrite (processBlock_other _ _ lvl _ _ _ _ _ Hb E1).
    by rewrite (processBlock_other _ _ lvl _ _ _ _ _ Hb E2).
Qed.

End Loop.

Lemma sim_extract_numbering (this : Server') (fuel : nat) :
  forall bs d lnA lnB,
    Sim (sameText (fun _ _ => True))
      (extractContentFromBlocks fuel this bs lnA d)
      (extractContentFromBlocks fuel this bs lnB d).
Proof.
  induction fuel as [|fuel IH]; intros bs d lnA lnB; [done|].
  cbn [extractContentFromBlocks].
  eapply sim_bind with (R := sameLoop d).
  - apply sim_foldM.
    + intros st1 st2 b H. apply sim_processBlock; [|by intros; apply IH|done].
      intros. apply extract_SameOutside.
    + split_and!; [done|done|done|]. by rewrite !nextNumber_initial.
  - intros st1 st2 (Hc & _). apply sim_ret. by split.
Qed.

(** X11.  The text does not depend on the numbering object passed in: two
    calls of [extractContentFromBlocks] that differ only in
    [listNumbering] issue the same requests and end the same way, with
    the same text. *)
Theorem decode_ignores_numbering (this : Server') (fuel : nat)
    (blocks : list Block) (d : nat) (lnA lnB : Numbering) :
  Sim (fun x y => x.1 = y.1)
    (extractContentFromBlocks fuel this blocks lnA d)
    (extractContentFromBlocks fuel this blocks lnB d).
Proof.
  eapply sim_mono; [|apply sim_extract_numbering]. by intros x y [? _].
Qed.

(** X12.  A call at depth [d] writes only the counters of numbered items of
    depth [d] and deeper: every other key of the numbering object, the
    counters of the shallower depths among them, is as before. *)
Theorem decode_counters_scoped (this : Server') (fuel : nat)
    (blocks : list Block) (ln ln' : Numbering) (d : nat) (out : jsstring)
    (s s' : State World QueryParams) :
  extractContentFromBlocks fuel this blocks ln d s = (Returned (out, ln'), s') ->
  (forall d', (d' < d)%nat -> ln' !! numberedKey d' = ln !! numberedKey d')
  /\ (forall k, (forall l, k ≠ numberedKey l) -> ln' !! k = ln !! k).
Proof.
  intros Hrun.
  pose proof (extract_SameOutside this fuel blocks ln d _ _ _ Hrun) as H.
  simpl in H. split.
  - intros d' Hd. apply H. by apply Outside_numberedKey.
  - intros k Hk. apply H. intros l _. apply Hk.
Qed.

(** X13.  The text decoded from the first blocks of a list starts the text
    decoded from the whole list. *)
Theorem decode_prefix (this : Server') (fuel : nat)
    (blocks more : list Block) (ln ln' : Numbering) (d : nat) (out : jsstring)
    (s s' : State World QueryParams) :
  extractContentFromBlocks fuel this (blocks ++ more) ln d s
  = (Returned (out, ln'), s') ->
  exists out1 ln1 s1 rest,
    extractContentFromBlocks fuel this blocks ln d s = (Returned (out1, ln1), s1)
    /\ out = out1 ++ rest.
Proof.
  destruct fuel as [|fuel]; [done|]. cbn [extractContentFromBlocks].
  intros (st & s2 & Hfold & Hret)%bind_returned. injection Hret as <- <- <-.
  apply foldM_app_returned in Hfold as (st1 & s1 & H1 & H2).
  assert (Hrec : forall bs ln l, (d <= l)%nat ->
            Ensures (extractContentFromBlocks fuel this bs ln l)
                    (fun r => SameOutside l ln r.2))
    by (intros; apply extract_SameOutside).
  destruct (foldM_processBlock_Grows _ _ d Hrec _ _ _ _ _ H2) as [[rest Hrest] _].
  exists (content st1), (listNumbering st1), s1, rest. split; [|done].
  by rewrite (bind_step _ _ _ _ _ H1).
Qed.

End DecoderRuns.

(** * Leaf blocks, paragraphs and tables *)

Lemma trackListContext_plain (d : nat) (b : Block) (st : LoopState) :
  type b ≠ lit "numbered_list_item" -> type b ≠ lit "bulleted_list_item" ->
  trackListContext d b st
  = {| content := content st; currentListType := None; currentListId := [];
       listNumbering := listNumbering st |}.
Proof.
  intros H1 H2. unfold trackListContext, isNumberedList, isBulletedList.
  rewrite (bool_decide_eq_false_2 _ H1), (bool_decide_eq_false_2 _ H2).
  reflexivity.
Qed.

Section LeafBlocks.

Context {World Page QueryParams : Type}.

Abbreviation M' := (M World QueryParams).
Abbreviation Numbering := (gmap jsstring Z).
Abbreviation Server' :=
  (Server (World:=World) (Page:=Page) (QueryParams:=QueryParams)).

Lemma renderBlock_leaf (fetch : jsstring -> M' (list Block))
    (recurse : list Block -> Numbering -> nat -> M' (jsstring * Numbering))
    d b c ln :
  type b ∈ leafTypes ->
  exists out, renderBlock fetch recurse d b c ln = ret (c ++ out, ln).
Proof.
  intros H. unfold leafTypes in H. simpl in H.
  repeat (apply elem_of_cons in H as [H|H];
          [unfold renderBlock; cbv beta zeta; rewrite H;
           eexists; reflexivity|]).
  by apply elem_of_nil in H.
Qed.

Lemma leaf_not_list (b : Block) :
  type b ∈ leafTypes ->
  type b ≠ lit "numbered_list_item" /\ type b ≠ lit "bulleted_list_item".
Proof.
  intros H. split; intros E; rewrite E in H;
    by apply (bool_decide_eq_false_1 (_ ∈ leafTypes)) in H.
Qed.

Lemma foldM_leaves (this : Server') (fuel d : nat) (bs : list Block) :
  Forall (fun b => type b ∈ leafTypes) bs ->
  forall st s, exists st',
    foldM (processBlock (fetchAllBlocks (Page:=Page) fuel this)
             (extractContentFromBlocks fuel this) d) bs st s
    = (Returned st', s)
    /\ listNumbering st' = listNumbering st.
Proof.
  induction 1 as [|b bs Hb _ IH]; intros st s; simpl.
  - by exists st.
  - destruct (leaf_not_list b Hb) as [Hn Hu].
    unfold processBlock at 1. rewrite (trackListContext_plain d b st Hn Hu).
    cbn [content listNumbering currentListType currentListId].
    destruct (renderBlock_leaf (fetchAllBlocks (Page:=Page) fuel this)
                (extractContentFromBlocks fuel this) d b (content st)
                (listNumbering st) Hb) as [out ->].
    unfold bind at 1 2, ret at 1 2. simpl.
    destruct (IH {| content := content st ++ out; currentListType := None;
                    currentListId := []; listNumbering := listNumbering st |} s)
      as (st' & -> & Hln).
    by exists st'.
Qed.

(** X14.  Paragraphs, headings, code, quotes, dividers, media, equations,
    templates and page links are decoded without any request, whatever
    [has_children] says: their children are never fetched.  The call
    returns, and the numbering object is as before. *)
Theorem decode_leaves_offline (this : Server') (fuel : nat)
    (blocks : list Block) (ln : Numbering) (d : nat)
    (s : State World QueryParams) :
  Forall (fun b => type b ∈ leafTypes) blocks ->
  exists out,
    extractContentFromBlocks (S fuel) this blocks ln d s = (Returned (out, ln), s).
Proof.
  intros H. cbn [extractContentFromBlocks].
  destruct (foldM_leaves this fuel d blocks H (initialState ln) s)
    as (st' & Hrun & Hln).
  exists (content st'). rewrite (bind_step _ _ _ _ _ Hrun).
  unfold ret, loopResult. by rewrite Hln.
Qed.

Lemma foldM_paragraphs (this : Server') (fuel d : nat)
    (chunks : list jsstring) (bs : list Block) :
  Forall2 (fun c b => type b = lit "paragraph" /\ plainText (rich_text b) = c)
          chunks bs ->
  forall st s, exists st',
    foldM (processBlock (fetchAllBlocks (Page:=Page) fuel this)
             (extractContentFromBlocks fuel this) d) bs st s
    = (Returned st', s)
    /\ listNumbering st' = listNumbering st
    /\ content st'
       = content st
           ++ concat (map (fun c => repeatString (lit "  ") d ++ c ++ [LF; LF])
                          chunks).
Proof.
  induction 1 as [|c b chunks bs [Hb Hc] _ IH]; intros st s; simpl.
  - exists st. by rewrite app_nil_r.
  - unfold processBlock at 1.
    rewrite trackListContext_plain by (rewrite Hb; done).
    cbn [content listNumbering currentListType currentListId].
    rewrite renderBlock_paragraph by done.
    unfold bind at 1 2, ret at 1 2. simpl.
    edestruct IH as (st' & -> & Hln & Hct).
    exists st'. split_and!; [done|done|].
    rewrite Hct. simpl. rewrite Hc. by rewrite <- !app_assoc.
Qed.

(** X15.  What is read back after a write: when the page holds the paragraphs
    made by [createParagraphBlocksFromText] for a text, decoding them
    gives the chunks of the text, each followed by a blank line; for a
    text within 2000 code units that is the text and one blank line. *)
Theorem written_text_read_back (this : Server') (fuel : nat)
    (text : jsstring) (written : list BlockObjectRequest)
    (stored : list Block) (s : State World QueryParams) :
  createParagraphBlocksFromText text = Some written ->
  Forall2 (fun w b => type b = bor_type w
                      /\ rich_text b = map snd (bor_rich_text w))
          written stored ->
  exists chunks,
    concat chunks = text
    /\ extractContentFromBlocks (S fuel) this stored ∅ 0 s
       = (Returned (concat (map (fun c => c ++ [LF; LF]) chunks), ∅), s)
    /\ ((length text <= 2000)%nat -> chunks = [text]).
Proof.
  unfold createParagraphBlocksFromText. intros Hw Hstored.
  destruct (splitTextIntoChunks_spec text 2000 ltac:(lia))
    as (chunks & Hsplit & Hcat & _).
  rewrite Hsplit in Hw. injection Hw as <-.
  exists chunks. split_and!; [done| |].
  - cbn [extractContentFromBlocks].
    destruct (foldM_paragraphs this fuel 0 chunks stored) with
      (st := initialState ∅) (s := s) as (st' & Hrun & Hln & Hct).
    { apply Forall2_fmap_l in Hstored. eapply Forall2_impl; [exact Hstored|].
      intros c b [Ht Hr]. simpl in *. split; [done|].
      rewrite Hr. unfold plainText, join. simpl. by rewrite app_nil_r. }
    rewrite (bind_step _ _ _ _ _ Hrun). unfold ret, loopResult.
    rewrite Hln, Hct. done.
  - intros Hlen. unfold splitTextIntoChunks in Hsplit.
    destruct (Z.leb_spec (Z.of_nat (length text)) 2000); [|lia]. congruence.
Qed.

End LeafBlocks.

(** ** [formatTableContent] *)

Lemma formatTableRows_spec (rows : list Block) (indent acc : jsstring)
    (seen : bool) :
  formatTableRows rows indent acc seen
  = acc ++ match filter (fun r => type r = lit "table_row") rows with
           | [] => []
           | h :: t =>
               (if seen then tableLine indent h
                else tableLine indent h ++ tableSeparator indent h)
                 ++ concat (map (tableLine indent) t)
           end.
Proof.
  revert acc seen.
  induction rows as [|row rows IH]; intros acc seen; cbn [formatTableRows].
  - rewrite filter_nil. by rewrite app_nil_r.
  - rewrite filter_cons.
    destruct (decide (type row = lit "table_row")) as [Hrow|Hrow].
    + rewrite (bool_decide_eq_true_2 _ Hrow).
      destruct seen; cbn [negb]; rewrite IH; unfold tableLine, tableSeparator;
        destruct (filter _ rows); cbn [concat map];
        rewrite <- ?app_assoc, ?app_nil_r; reflexivity.
    + rewrite (bool_decide_eq_false_2 _ Hrow). apply IH.
Qed.

(** X16.  The text of a table: the rows that are not of type [table_row] are
    skipped; the first row is the header, with a separator line of as
    many cells below it; a line feed closes the table, also when it has
    no row. *)
Theorem formatTableContent_spec (rows : list Block) (indent : jsstring) :
  formatTableContent rows indent
  = match filter (fun r => type r = lit "table_row") rows with
    | [] => [LF]
    | header :: data =>
        tableLine indent header ++ tableSeparator indent header
          ++ concat (map (tableLine indent) data) ++ [LF]
    end.
Proof.
  unfold formatTableContent. rewrite formatTableRows_spec.
  destruct (filter _ rows); [done|]. cbn [app]. by rewrite <- !app_assoc.
Qed.

(** * More about [updatePrompt], and [readPrompt] *)

Section HandlerFacts.

Context {World Page QueryParams : Type}.
Variable JSON_stringify : jsstring -> jsstring.

Abbreviation M' := (M World QueryParams).
Abbreviation Numbering := (gmap jsstring Z).
Abbreviation Server' :=
  (Server (World:=World) (Page:=Page) (QueryParams:=QueryParams)).

Lemma tryCatch_returns {A} (m : M' A) (h : exn -> M' A) s :
  (forall e s, exists a, h e s = (Returned a, s)) ->
  forall e, (tryCatch m h s).1 ≠ Thrown e.
Proof.
  intros Hh e. unfold tryCatch. destruct (m s) as [[a|e'|] s1]; simpl; try done.
  destruct (Hh e' s1) as [a ->]. done.
Qed.

Lemma tryCatch_step {A} (m : M' A) (h : exn -> M' A) s a s' :
  m s = (Returned a, s') -> tryCatch m h s = (Returned a, s').
Proof. unfold tryCatch. by intros ->. Qed.

Lemma tryCatch_thrown {A} (m : M' A) (h : exn -> M' A) s e s' :
  m s = (Thrown e, s') -> tryCatch m h s = h e s'.
Proof. unfold tryCatch. by intros ->. Qed.

Lemma bind_thrown {A B} (m : M' A) (k : A -> M' B) s e s' :
  m s = (Thrown e, s') -> bind m k s = (Thrown e, s').
Proof. unfold bind. by intros ->. Qed.

Lemma bind_ret_l {A B} (a : A) (k : A -> M' B) s : bind (ret a) k s = k a s.
Proof. reflexivity. Qed.

Lemma updatePromptCatch_returns e (s : State World QueryParams) :
  exists a, updatePromptCatch e s = (Returned a, s).
Proof. unfold updatePromptCatch. destruct (_ || _); eexists; reflexivity. Qed.

Lemma readPromptCatch_returns e (s : State World QueryParams) :
  exists a, readPromptCatch e s = (Returned a, s).
Proof. unfold readPromptCatch. destruct (_ || _); eexists; reflexivity. Qed.



(** X20.  The type is checked before anything is written: when the database
    does not have the type among its options, the result is an error and
    the two retrievals are the only requests issued. *)
Theorem updatePrompt_invalid_type (this : Server') (fuel : nat)
    (client : Client World Page QueryParams) (book : PromptBook)
    (args : UpdateArgs) (c : N) (promptId type_ : jsstring)
    (s : State World QueryParams) (w1 w2 : World)
    (database : DatabaseObject) :
  notion this = Some client ->
  activePromptBook this = Some book ->
  notion_database_id book ≠ [] ->
  arg_prompt_id args = Some (c :: promptId) ->
  arg_type args = Some type_ ->
  client (PagesRetrieve (c :: promptId)) (world s) = (Returned tt, w1) ->
  client (DatabasesRetrieve (notion_database_id book)) w1
  = (Returned database, w2) ->
  type_ ∉ default [] (type_select_options database) ->
  exists result,
    updatePrompt JSON_stringify fuel this (Some args) s
    = (Returned result,
       {| world := w2;
          requests := requests s
                        ++ [PagesRetrieve (c :: promptId);
                            DatabasesRetrieve (notion_database_id book)] |})
    /\ isError result = true.
Proof.
  intros Hn Hb Hdb Hid Ht Hcall1 Hcall2 Hbad. unfold updatePrompt. rewrite Hid.
  rewrite (bool_decide_eq_true_2 (arg_type args ≠ None)) by (by rewrite Ht).
  rewrite orb_true_r. cbn [orb negb].
  unfold updatePromptBody, tryCatch, bind, call. rewrite Hb, Hn, Ht.
  destruct (notion_database_id book) as [|x db] eqn:Edb; [done|].
  cbn [truthy negb world requests]. rewrite Hcall1.
  cbn [world requests ret negb]. rewrite Hcall2.
  rewrite (bool_decide_eq_false_2 _ Hbad). cbn [ret].
  eexists. split; [rewrite <- app_assoc; reflexivity|reflexivity].
Qed.

(** ** Replacing the content *)

Lemma deletes_run (client : Client World Page QueryParams)
    (blocks : list Block) :
  (forall b w, b ∈ blocks -> (client (BlocksDelete (id b)) w).1 = Returned tt) ->
  forall s, exists w',
    foldM (fun _ block => call client (BlocksDelete (id block))) blocks tt s
    = (Returned tt,
       {| world := w';
          requests := requests s ++ map (fun b => BlocksDelete (id b)) blocks |}).
Proof.
  induction blocks as [|b blocks IH]; intros Hok s; simpl.
  - exists (world s). rewrite app_nil_r. by destruct s.
  - unfold bind, call at 1.
    pose proof (Hok b (world s) ltac:(set_solver)) as Hb.
    destruct (client (BlocksDelete (id b)) (world s)) as [o w1]. simpl in Hb.
    subst o.
    destruct (IH ltac:(intros; apply Hok; set_solver)
                {| world := w1; requests := requests s ++ [BlocksDelete (id b)] |})
      as [w' ->].
    exists w'. simpl. by rewrite <- app_assoc.
Qed.

Lemma deletes_fail (client : Client World Page QueryParams)
    (done_ : list Block) (b : Block) (todo : list Block) (e : exn) :
  (forall x w, x ∈ done_ -> (client (BlocksDelete (id x)) w).1 = Returned tt) ->
  (forall w, (client (BlocksDelete (id b)) w).1 = Thrown e) ->
  forall s, exists w',
    foldM (fun _ block => call client (BlocksDelete (id block)))
          (done_ ++ b :: todo) tt s
    = (Thrown e,
       {| world := w';
          requests := requests s
                        ++ map (fun x => BlocksDelete (id x)) (done_ ++ [b]) |}).
Proof.
  intros Hok Hfail s. rewrite foldM_app.
  destruct (deletes_run client done_ Hok s) as [w1 E].
  rewrite (bind_step _ _ _ _ _ E). simpl. unfold bind, call at 1. simpl.
  specialize (Hfail w1).
  destruct (client (BlocksDelete (id b)) w1) as [o w2]. simpl in Hfail. subst o.
  exists w2. rewrite map_app. simpl. by rewrite <- app_assoc.
Qed.

(** X21.  The content is replaced: for a call that supplies only
    [detailed_prompt], once the page is found and its blocks are
    fetched, every fetched block is deleted, in order, and then the
    paragraphs of the new text are appended in one request; the result
    is the success message. *)
Theorem updatePrompt_replaces_content (this : Server') (fuel : nat)
    (client : Client World Page QueryParams) (book : PromptBook)
    (args : UpdateArgs) (c : N) (promptId text : jsstring)
    (s s1 s2 : State World QueryParams) (existing : list Block)
    (children : list BlockObjectRequest) :
  notion this = Some client ->
  activePromptBook this = Some book ->
  notion_database_id book ≠ [] ->
  arg_prompt_id args = Some (c :: promptId) ->
  arg_name args = None -> arg_type args = None -> arg_tags args = None ->
  arg_detailed_prompt args = Some text ->
  call client (PagesRetrieve (c :: promptId)) s = (Returned tt, s1) ->
  fetchAllBlocks fuel this (c :: promptId) s1 = (Returned existing, s2) ->
  (forall b w, b ∈ existing -> (client (BlocksDelete (id b)) w).1 = Returned tt) ->
  (forall w, (client (BlocksChildrenAppend (c :: promptId) children) w).1
             = Returned tt) ->
  createParagraphBlocksFromText text = Some children ->
  exists w',
    updatePrompt JSON_stringify fuel this (Some args) s
    = (Returned (successResult JSON_stringify (c :: promptId)),
       {| world := w';
          requests := requests s2
                        ++ map (fun b => BlocksDelete (id b)) existing
                        ++ [BlocksChildrenAppend (c :: promptId) children] |}).
Proof.
  intros Hn Hb Hdb Hid Hname Htype Htags Hd Hret Hfetch Hdel Happ Hnew.
  unfold updatePrompt. rewrite Hid.
  rewrite (bool_decide_eq_true_2 (arg_detailed_prompt args ≠ None))
    by (by rewrite Hd).
  rewrite orb_true_r. cbn [orb negb].
  unfold updatePromptBody. rewrite Hb, Hn, Hname, Htype, Htags, Hd, Hnew.
  destruct (notion_database_id book) as [|x db] eqn:Edb; [done|].
  cbn [truthy negb keysLength prop_Name prop_Type prop_Tags Z.add Z.ltb Z.compare].
  destruct (deletes_run client existing Hdel s2) as [w1 Hrun].
  specialize (Happ w1).
  destruct (client (BlocksChildrenAppend (c :: promptId) children) w1)
    as [o w2] eqn:Ecall.
  simpl in Happ. subst o. exists w2.
  apply tryCatch_step.
  assert (Hfound : tryCatch (call client (PagesRetrieve (c :: promptId)) ;;; ret true)
                     (fun _ => ret false) s = (Returned true, s1))
    by (apply tryCatch_step; by rewrite (bind_step _ _ _ _ _ Hret)).
  rewrite (bind_step _ _ _ _ _ Hfound). cbn [negb].
  change (0 <? keysLength {| prop_Name := None; prop_Type := None;
                             prop_Tags := None |}) with false.
  rewrite ?bind_ret_l. cbv beta iota. rewrite ?bind_ret_l.
  match goal with
  | |- bind ?m _ _ = _ =>
      assert (Hinner : m s1
        = (Returned tt,
           {| world := w2;
              requests := requests s2
                            ++ map (fun b => BlocksDelete (id b)) existing
                            ++ [BlocksChildrenAppend (c :: promptId) children] |}))
  end.
  { rewrite (bind_step _ _ _ _ _ Hfetch), (bind_step _ _ _ _ _ Hrun).
    unfold call. cbn [world requests]. rewrite Ecall. by rewrite <- app_assoc. }
  by rewrite (bind_step _ _ _ _ _ Hinner).
Qed.

(** X22.  The replacement is not atomic: when the deletion of a block is
    rejected, the blocks before it are gone, the later ones are not
    deleted, and the new text is not appended; the result is an
    error. *)
Theorem updatePrompt_partial_failure (this : Server') (fuel : nat)
    (client : Client World Page QueryParams) (book : PromptBook)
    (args : UpdateArgs) (c : N) (promptId text : jsstring)
    (s s1 s2 : State World QueryParams)
    (done_ : list Block) (b : Block) (todo : list Block) (e : exn) :
  notion this = Some client ->
  activePromptBook this = Some book ->
  notion_database_id book ≠ [] ->
  arg_prompt_id args = Some (c :: promptId) ->
  arg_name args = None -> arg_type args = None -> arg_tags args = None ->
  arg_detailed_prompt args = Some text ->
  call client (PagesRetrieve (c :: promptId)) s = (Returned tt, s1) ->
  fetchAllBlocks fuel this (c :: promptId) s1
  = (Returned (done_ ++ b :: todo), s2) ->
  (forall x w, x ∈ done_ -> (client (BlocksDelete (id x)) w).1 = Returned tt) ->
  (forall w, (client (BlocksDelete (id b)) w).1 = Thrown e) ->
  exists result w',
    updatePrompt JSON_stringify fuel this (Some args) s
    = (Returned result,
       {| world := w';
          requests := requests s2
                        ++ map (fun x => BlocksDelete (id x)) (done_ ++ [b]) |})
    /\ isError result = true.
Proof.
  intros Hn Hb Hdb Hid Hname Htype Htags Hd Hret Hfetch Hdel Hfail.
  unfold updatePrompt. rewrite Hid.
  rewrite (bool_decide_eq_true_2 (arg_detailed_prompt args ≠ None))
    by (by rewrite Hd).
  rewrite orb_true_r. cbn [orb negb].
  unfold updatePromptBody. rewrite Hb, Hn, Hname, Htype, Htags, Hd.
  destruct (notion_database_id book) as [|x db] eqn:Edb; [done|].
  cbn [truthy negb keysLength prop_Name prop_Type prop_Tags Z.add Z.ltb Z.compare].
  destruct (deletes_fail client done_ b todo e Hdel Hfail s2) as [w1 Hrun].
  destruct (updatePromptCatch_returns e
              {| world := w1;
                 requests := requests s2
                   ++ map (fun x => BlocksDelete (id x)) (done_ ++ [b]) |})
    as [result Hc].
  exists result, w1. split.
  - rewrite <- Hc. apply tryCatch_thrown.
    assert (Hfound : tryCatch (call client (PagesRetrieve (c :: promptId)) ;;; ret true)
                       (fun _ => ret false) s = (Returned true, s1))
      by (apply tryCatch_step; by rewrite (bind_step _ _ _ _ _ Hret)).
    rewrite (bind_step _ _ _ _ _ Hfound). cbn [negb].
    change (0 <? keysLength {| prop_Name := None; prop_Type := None;
                               prop_Tags := None |}) with false.
    rewrite ?bind_ret_l. cbv beta iota. rewrite ?bind_ret_l.
    apply bind_thrown.
    rewrite (bind_step _ _ _ _ _ Hfetch). by apply bind_thrown.
  - unfold updatePromptCatch in Hc. destruct (_ || _); by injection Hc as <-.
Qed.

End HandlerFacts.

Section ReadFacts.

Context {World Page QueryParams : Type}.

Abbreviation M' := (M World QueryParams).
Abbreviation Numbering := (gmap jsstring Z).
Abbreviation Server' :=
  (Server (World:=World) (Page:=Page) (QueryParams:=QueryParams)).

Lemma iss_renderBlock (P : Request QueryParams -> Prop)
    (fetch : jsstring -> M' (list Block))
    (recurse : list Block -> Numbering -> nat -> M' (jsstring * Numbering))
    d b c ln :
  (forall i, Issues P (fetch i)) ->
  (forall bs ln d, Issues P (recurse bs ln d)) ->
  Issues P (renderBlock fetch recurse d b c ln).
Proof.
  intros Hf Hr. unfold renderBlock. cbv beta zeta.
  repeat first
    [ apply iss_ret
    | apply Hf
    | apply Hr
    | apply iss_bind; [|intros ?]
    | apply iss_foldM; intros ? ?
    | match goal with
      | |- Issues _ (if ?x then _ else _) => destruct x
      end ].
Qed.

Lemma iss_extract (P : Request QueryParams -> Prop) (this : Server')
    (fuel : nat) :
  (forall b n c, P (BlocksChildrenList b n c)) ->
  forall bs ln d, Issues P (extractContentFromBlocks fuel this bs ln d).
Proof.
  intros HP. induction fuel as [|fuel IH]; intros bs ln d;
    [apply iss_diverge|].
  cbn [extractContentFromBlocks].
  apply iss_bind; [|intros; apply iss_ret].
  apply iss_foldM. intros st b. unfold processBlock.
  apply iss_bind; [|intros; apply iss_ret].
  apply iss_renderBlock; [|apply IH].
  intros i. by apply iss_fetchAllBlocks.
Qed.

(** X17.  The decoder only lists the children of blocks, 100 to a page:
    it issues no other request. *)
Theorem decode_requests (this : Server') (fuel : nat) (blocks : list Block)
    (ln : Numbering) (d : nat) (s : State World QueryParams) :
  Forall (fun r => exists b c, r = BlocksChildrenList b 100 c)
         (issued (extractContentFromBlocks fuel this blocks ln d) s).
Proof.
  apply issued_Issues.
  induction fuel as [|fuel IH] in blocks, ln, d |- *; [apply iss_diverge|].
  cbn [extractContentFromBlocks].
  apply iss_bind; [|intros; apply iss_ret].
  apply iss_foldM. intros st b. unfold processBlock.
  apply iss_bind; [|intros; apply iss_ret].
  apply iss_renderBlock; [|intros; apply IH].
  intros i. unfold fetchAllBlocks. destruct (notion this) as [client|];
    [|apply iss_throw].
  apply iss_fetchLoop. intros cur.
  apply (iss_call _ client (BlocksChildrenList i 100 cur)). eauto.
Qed.

(** X23.  [readPrompt] only reads: whatever its outcome, every request it
    issues is a retrieval or a listing. *)
Theorem readPrompt_read_only (this : Server') (fuel : nat)
    (promptId : option jsstring) (s : State World QueryParams) :
  Forall (fun r => isRead r = true) (issued (readPrompt fuel this promptId) s).
Proof.
  apply issued_Issues. unfold readPrompt, readPromptBody, readPromptCatch.
  repeat first
    [ apply iss_ret
    | apply iss_throw
    | match goal with
      | |- Issues ?P (call ?c ?r) => apply (iss_call P c r); reflexivity
      end
    | apply iss_fetchAllBlocks; reflexivity
    | apply iss_extract; reflexivity
    | apply iss_bind; [|intros ?]
    | apply iss_tryCatch; [|intros ?]
    | match goal with
      | |- Issues _ (if ?x then _ else _) => destruct x
      | |- Issues _ (match ?x with _ => _ end) => destruct x
      end ].
Qed.

(** X24.  [readPrompt] throws only for a missing prompt id, before any
    request; every failure of the remote ends in a returned result. *)
Theorem readPrompt_throws_on_validation_only (this : Server') (fuel : nat)
    (promptId : option jsstring) (s : State World QueryParams) (e : exn) :
  (readPrompt fuel this promptId s).1 = Thrown e ->
  e = McpError_InvalidParams (lit "Prompt ID is required")
  /\ (readPrompt fuel this promptId s).2 = s
  /\ (promptId = None \/ promptId = Some []).
Proof.
  unfold readPrompt. destruct promptId as [[|c i]|]; simpl;
    try (intros [= <-]; split_and!; eauto).
  intros H. exfalso. revert H.
  apply tryCatch_returns, readPromptCatch_returns.
Qed.

End ReadFacts.

(** * [formatPageId] *)

Lemma removeHyphens_app (a b : jsstring) :
  removeHyphens (a ++ b) = removeHyphens a ++ removeHyphens b.
Proof. apply filter_app. Qed.

Lemma removeHyphens_hyphen : removeHyphens [HYPHEN] = [].
Proof. reflexivity. Qed.

Lemma removeHyphens_clean (s : jsstring) :
  HYPHEN ∉ s -> removeHyphens s = s.
Proof.
  intros H. induction s as [|c s IH]; [done|].
  unfold removeHyphens in *. rewrite filter_cons.
  rewrite decide_True by set_solver. f_equal. apply IH. set_solver.
Qed.

Lemma removeHyphens_none (s : jsstring) : HYPHEN ∉ removeHyphens s.
Proof. unfold removeHyphens. rewrite list_elem_of_filter. tauto. Qed.

Lemma removeHyphens_idem (s : jsstring) :
  removeHyphens (removeHyphens s) = removeHyphens s.
Proof. apply removeHyphens_clean, removeHyphens_none. Qed.

(** [slice] between two indices inside the string. *)
Lemma slice_inside (s : jsstring) (a b : nat) :
  (a <= b <= length s)%nat ->
  slice s (Z.of_nat a) (Some (Z.of_nat b)) = take (b - a) (drop a s).
Proof.
  intros H. unfold slice, sliceIndex. cbv zeta.
  destruct (Z.ltb_spec (Z.of_nat a) 0); [lia|].
  destruct (Z.ltb_spec (Z.of_nat b) 0); [lia|].
  f_equal; [|f_equal]; lia.
Qed.

Lemma slice_tail (s : jsstring) (a : nat) :
  (a <= length s)%nat -> slice s (Z.of_nat a) None = drop a s.
Proof.
  intros H. unfold slice, sliceIndex. cbv zeta.
  destruct (Z.ltb_spec (Z.of_nat a) 0); [lia|].
  replace (Z.to_nat (Z.min (Z.of_nat a) (Z.of_nat (length s)))) with a by lia.
  apply take_ge. rewrite length_drop. lia.
Qed.

(** The five groups of a clean id of 32 code units. *)
Lemma formatPageId_groups (id : jsstring) :
  length (removeHyphens id) = 32%nat ->
  formatPageId id
  = take 8 (removeHyphens id) ++ [HYPHEN]
      ++ take 4 (drop 8 (removeHyphens id)) ++ [HYPHEN]
      ++ take 4 (drop 12 (removeHyphens id)) ++ [HYPHEN]
      ++ take 4 (drop 16 (removeHyphens id)) ++ [HYPHEN]
      ++ drop 20 (removeHyphens id).
Proof.
  intros H. unfold formatPageId. cbv zeta.
  rewrite bool_decide_eq_true_2 by done.
  rewrite (slice_inside _ 0 8), (slice_inside _ 8 12), (slice_inside _ 12 16),
    (slice_inside _ 16 20), (slice_tail _ 20) by lia.
  reflexivity.
Qed.

Lemma removeHyphens_part (s part : jsstring) :
  part ⊆ removeHyphens s -> removeHyphens part = part.
Proof.
  intros H. apply removeHyphens_clean. intros Hin.
  by apply (removeHyphens_none s), H.
Qed.

Lemma removeHyphens_formatPageId (id : jsstring) :
  removeHyphens (formatPageId id) = removeHyphens id.
Proof.
  destruct (decide (length (removeHyphens id) = 32%nat)) as [H|H].
  - rewrite (formatPageId_groups id H).
    rewrite !removeHyphens_app, !removeHyphens_hyphen.
    rewrite (removeHyphens_part id (take 8 _)) by apply subseteq_take.
    rewrite !(removeHyphens_part id (take 4 (drop _ _)))
      by (etrans; [apply subseteq_take|apply subseteq_drop]).
    rewrite (removeHyphens_part id (drop 20 _)) by apply subseteq_drop.
    revert H. generalize (removeHyphens id). intros c H.
    do 33 (destruct c as [|? c]; try done).
  - unfold formatPageId. cbv zeta. by rewrite bool_decide_eq_false_2.
Qed.

(** X25.  [formatPageId] changes nothing but hyphens: the id that comes out,
    without its hyphens, is the id that went in, without its hyphens. *)
Theorem formatPageId_keeps_characters (id : jsstring) :
  removeHyphens (formatPageId id) = removeHyphens id.
Proof. apply removeHyphens_formatPageId. Qed.

(** X26.  Formatting twice is formatting once. *)
Theorem formatPageId_idempotent (id : jsstring) :
  formatPageId (formatPageId id) = formatPageId id.
Proof.
  destruct (decide (length (removeHyphens id) = 32%nat)) as [H|H].
  - assert (H' : length (removeHyphens (formatPageId id)) = 32%nat)
      by (by rewrite removeHyphens_formatPageId).
    rewrite (formatPageId_groups _ H'), removeHyphens_formatPageId.
    by rewrite (formatPageId_groups id H).
  - assert (E : formatPageId id = id)
      by (unfold formatPageId; cbv zeta; by rewrite bool_decide_eq_false_2).
    by rewrite !E.
Qed.

(** X27.  An id of 32 code units, hyphens not counted, comes out 36 long,
    with hyphens after its 8th, 12th, 16th and 20th code unit. *)
Theorem formatPageId_shape (id : jsstring) :
  length (removeHyphens id) = 32%nat ->
  length (formatPageId id) = 36%nat
  /\ formatPageId id !! 8%nat = Some HYPHEN
  /\ formatPageId id !! 13%nat = Some HYPHEN
  /\ formatPageId id !! 18%nat = Some HYPHEN
  /\ formatPageId id !! 23%nat = Some HYPHEN.
Proof.
  intros H. rewrite (formatPageId_groups id H).
  revert H. generalize (removeHyphens id). intros c H.
  do 33 (destruct c as [|? c]; try done).
Qed.

(** * The properties at work *)

Lemma chunks_within_two_of_limit_witness :
  Forall (fun c => Z.of_nat (length c) ≤ 8 + 2)
         [lit "One two. "; lit "Three "; lit "four! "; lit "Five"].
Proof.
  apply (chunks_within_two_of_limit (lit "One two. Three four! Five") 8);
    [lia|vm_compute; reflexivity].
Defined.

Lemma chunk_min_length_witness :
  Forall (fun c => 8 < 2 * Z.of_nat (length c))
         [lit "One two. "; lit "Three "; lit "four! "].
Proof.
  apply (chunk_min_length (lit "One two. Three four! Five") 8 _ (lit "Five"));
    [lia|vm_compute; reflexivity].
Defined.


Lemma chunk_exact_without_breaks_witness :
  Forall (fun c => Z.of_nat (length c) = 4) [lit "abcd"; lit "efgh"].
Proof.
  apply (chunk_exact_without_breaks (lit "abcdefghij") 4 _ (lit "ij"));
    [lia
    |apply (bool_decide_eq_false_1 (_ ∈ _)); vm_compute; reflexivity
    |apply (bool_decide_eq_false_1 (_ ∈ _)); vm_compute; reflexivity
    |vm_compute; reflexivity].
Defined.

Lemma splitLoop_zero_never_ends_witness :
  splitLoop 7 (lit "a") 0 [] = None.
Proof. apply splitLoop_zero_never_ends. discriminate. Defined.

Lemma fetchers_propagate_errors_witness :
  fetchAllBlocks 3 failingServer (lit "x") freshState
  = (Thrown (JsError (lit "Could not find page")),
     {| world := 1%nat;
        requests := [BlocksChildrenList (lit "x") 100 None] |}).
Proof.
  refine (proj2 (fetchers_propagate_errors failingServer failingClient eq_refl)
            (lit "x") [] None freshState freshState _ _ 3%nat
            (Continues_nil _ _ _) eq_refl _).
  simpl. lia.
Defined.

Lemma fetchAllBlocks_endless_witness :
  (fetchAllBlocks 25 endlessServer (lit "x") freshState).1 = Diverged
  /\ length (issued (fetchAllBlocks 25 endlessServer (lit "x")) freshState)
     = 25%nat.
Proof.
  apply (fetchAllBlocks_endless endlessServer endlessClient (lit "x") eq_refl).
  intros c w. eexists _, _. split_and!; reflexivity.
Defined.

Lemma decoders_agree_witness :
  extractContentFromBlocksWithClient 3 listBlocks (scriptedClient [] listTree)
    ∅ 0 freshState
  = extractContentFromBlocks 3 (scriptedServer [] listTree) listBlocks
      ∅ 0 freshState.
Proof. apply decoders_agree. reflexivity. Defined.

Lemma decode_counters_scoped_witness :
  exists out ln' s',
    extractContentFromBlocks 3 (scriptedServer [] listTree)
      (take 2 (drop 1 listBlocks)) {[ numberedKey 0 := 7 ]} 1 freshState
    = (Returned (out, ln'), s')
    /\ ln' !! numberedKey 0 = Some 7
    /\ ln' !! numberedKey 1 = Some 3.
Proof.
  eexists _, _, _. split; [vm_compute; reflexivity|]. split.
  - refine (proj1 (decode_counters_scoped (scriptedServer [] listTree) 3
                     (take 2 (drop 1 listBlocks)) {[ numberedKey 0 := 7 ]} _ 1
                     _ freshState _ _) 0%nat _); [vm_compute; reflexivity|lia].
  - vm_compute. reflexivity.
Defined.

Lemma decode_prefix_witness :
  exists out1 ln1 s1 rest,
    extractContentFromBlocks 3 (scriptedServer [] listTree)
      (take 3 listBlocks) ∅ 0 freshState
    = (Returned (out1, ln1), s1)
    /\ lit "## Steps" ++ [LF; LF]
         ++ lit "1. A" ++ [LF] ++ lit "  1. sub a" ++ [LF] ++ lit "  2. sub b"
         ++ [LF; LF] ++ lit "2. B" ++ [LF]
         ++ lit "P" ++ [LF; LF]
         ++ lit "1. C" ++ [LF] ++ lit "2. D" ++ [LF]
         ++ lit "> end" ++ [LF; LF]
       = out1 ++ rest.
Proof.
  refine (decode_prefix (scriptedServer [] listTree) 3
            (take 3 listBlocks) (drop 3 listBlocks) ∅ _ 0 _ freshState _ _).
  vm_compute. reflexivity.
Defined.

Lemma decode_leaves_offline_witness :
  exists out,
    extractContentFromBlocks 1 failingServer
      [textBlock "a" "paragraph" true "has children";
       textBlock "b" "heading_1" false "Title"] ∅ 0 freshState
    = (Returned (out, ∅), freshState).
Proof.
  apply decode_leaves_offline.
  repeat constructor;
    apply (bool_decide_eq_true_1 (_ ∈ leafTypes)); vm_compute; reflexivity.
Defined.

Lemma written_text_read_back_witness :
  exists chunks,
    concat chunks = lit "Hello"
    /\ extractContentFromBlocks 1 failingServer
         [textBlock "x" "paragraph" false "Hello"] ∅ 0 freshState
       = (Returned (concat (map (fun c => c ++ [LF; LF]) chunks), ∅), freshState)
    /\ ((length (lit "Hello") <= 2000)%nat -> chunks = [lit "Hello"]).
Proof.
  apply (written_text_read_back failingServer 0 (lit "Hello")
           [{| bor_object := lit "block"; bor_type := lit "paragraph";
               bor_rich_text := [(lit "text", lit "Hello")] |}]).
  - vm_compute. reflexivity.
  - repeat constructor.
Defined.



Lemma updatePrompt_invalid_type_witness :
  exists result,
    updatePrompt quoteOnly 3 (scriptedServer [] wrapperTree) (Some typeOnlyArgs)
      freshState
    = (Returned result,
       {| world := 2%nat;
          requests := [PagesRetrieve (lit "w"); DatabasesRetrieve (lit "db")] |})
    /\ isError result = true.
Proof.
  refine (updatePrompt_invalid_type quoteOnly (scriptedServer [] wrapperTree) 3
            (scriptedClient [] wrapperTree) _ typeOnlyArgs 119%N [] (lit "Coding")
            freshState _ _ _ eq_refl eq_refl _ eq_refl eq_refl
            eq_refl eq_refl _).
  - discriminate.
  - apply not_elem_of_nil.
Defined.

Lemma updatePrompt_replaces_content_witness :
  exists w',
    updatePrompt quoteOnly 3 (scriptedServer [] wrapperTree)
      (Some contentOnlyArgs) freshState
    = (Returned (successResult quoteOnly (lit "w")),
       {| world := w';
          requests :=
            [PagesRetrieve (lit "w"); BlocksChildrenList (lit "w") 100 None]
              ++ [BlocksDelete (lit "p")]
              ++ [BlocksChildrenAppend (lit "w")
                    [{| bor_object := lit "block"; bor_type := lit "paragraph";
                        bor_rich_text := [(lit "text", lit "New text.")] |}]] |}).
Proof.
  refine (updatePrompt_replaces_content quoteOnly (scriptedServer [] wrapperTree)
            3 (scriptedClient [] wrapperTree) _ contentOnlyArgs 119%N []
            (lit "New text.") freshState _ _
            [textBlock "p" "paragraph" false "Nested"] _
            eq_refl eq_refl _ eq_refl eq_refl eq_refl eq_refl eq_refl
            eq_refl eq_refl _ _ eq_refl).
  - discriminate.
  - intros b w _. reflexivity.
  - intros w. reflexivity.
Defined.

Lemma updatePrompt_partial_failure_witness :
  exists result w',
    updatePrompt quoteOnly 3 stubbornServer (Some contentOnlyArgs) freshState
    = (Returned result,
       {| world := w';
          requests :=
            [PagesRetrieve (lit "w"); BlocksChildrenList (lit "w") 100 None]
              ++ [BlocksDelete (lit "p1"); BlocksDelete (lit "p2")] |})
    /\ isError result = true.
Proof.
  refine (updatePrompt_partial_failure quoteOnly stubbornServer 3 stubbornClient
            _ contentOnlyArgs 119%N [] (lit "New text.") freshState _ _
            [textBlock "p1" "paragraph" false "one"]
            (textBlock "p2" "paragraph" false "two")
            [textBlock "p3" "paragraph" false "three"]
            (JsError (lit "conflict_error"))
            eq_refl eq_refl _ eq_refl eq_refl eq_refl eq_refl eq_refl
            eq_refl eq_refl _ _).
  - discriminate.
  - intros x w Hx. apply list_elem_of_singleton in Hx. rewrite Hx. reflexivity.
  - intros w. reflexivity.
Defined.

Lemma readPrompt_throws_on_validation_only_witness :
  (readPrompt 3 (scriptedServer [] wrapperTree) None freshState).2 = freshState.
Proof.
  refine (proj1 (proj2 (readPrompt_throws_on_validation_only
                          (scriptedServer [] wrapperTree) 3 None freshState
                          _ eq_refl))).
Defined.

Lemma formatPageId_shape_witness :
  formatPageId (lit "0123-4567-89abcdef0123456789abc-def")
  = lit "01234567-89ab-cdef-0123-456789abcdef"
  /\ length (formatPageId (lit "0123-4567-89abcdef0123456789abc-def")) = 36%nat.
Proof.
  split; [vm_compute; reflexivity|].
  apply (formatPageId_shape (lit "0123-4567-89abcdef0123456789abc-def")).
  vm_compute. reflexivity.
Defined.
